(** * benchmarks/benchmark_llm.py: a shallow embedding

    The benchmark issues many streaming chat-completion requests through a
    pool of asyncio workers and aggregates latency, throughput and
    time-to-first-token statistics.

    Conventions of the embedding:
    - Python [int] is [Z]; Python [float] (timestamps, durations, rates) is
      idealised as an exact rational [Q];
    - a value that may be [None] is an [option];
    - raising is explicit: a computation yields [Returned v] or [Raised e],
      and the logging side channel and the requests sent to the client are
      threaded through a [world];
    - the asyncio event loop is a nondeterministic interleaving of the
      workers' atomic steps, driven by a schedule. *)

From Stdlib Require Import String ZArith QArith Qround Bool Arith Lia Lqa Sorted List.
Import ListNotations.

Open Scope Z_scope.

(** ** Python exceptions *)

Module Py.

(** The part of the exception hierarchy the program can tell apart.
    [TimeoutError], [IndexError], [ValueError], [ZeroDivisionError] and
    [OtherException] derive from [Exception]; [CancelledError],
    [KeyboardInterrupt] and [SystemExit] derive from [BaseException] only. *)
Inductive exn : Type :=
| TimeoutError
| IndexError
| ValueError
| ZeroDivisionError
| OtherException (msg : string)
| CancelledError
| KeyboardInterrupt
| SystemExit.

(** [isinstance(e, asyncio.TimeoutError)] *)
Definition is_TimeoutError (e : exn) : bool :=
  match e with TimeoutError => true | _ => false end.

(** [isinstance(e, Exception)] *)
Definition is_Exception (e : exn) : bool :=
  match e with
  | CancelledError | KeyboardInterrupt | SystemExit => false
  | _ => true
  end.

Inductive outcome (A : Type) : Type :=
| Returned (a : A)
| Raised (e : exn).
Arguments Returned {A} a.
Arguments Raised {A} e.

End Py.
Import Py.

(** ** The side channel: log records and requests sent to the client *)

Inductive log_record : Type :=
| LogTimedOut (request_timeout : Z)   (* warning: Request timed out after .. seconds *)
| LogRequestError (e : exn)           (* error: Error during request: .. *)
| LogStarting (task_id : nat)         (* info: Starting request .. *)
| LogFailed (task_id : nat)           (* warning: Request .. failed *)
| LogFinished (task_id : nat)         (* info: Finished request .. *)
| LogPreflightFailed.                 (* error: Preflight check failed. .. *)

(** One call of [client.chat.completions.create]. *)
Record issued_request : Type := {
  req_model : string;
  req_content : string;
  req_max_completion_tokens : Z
}.

Record world : Type := {
  log : list log_record;
  issued : list issued_request
}.

Definition empty_world : world := {| log := []; issued := [] |}.

(** Computations with exceptions over the world. *)
Definition M (A : Type) : Type := world -> outcome A * world.

Definition ret {A} (a : A) : M A := fun w => (Returned a, w).
Definition raise {A} (e : exn) : M A := fun w => (Raised e, w).
Definition bind {A B} (m : M A) (k : A -> M B) : M B :=
  fun w => match m w with
           | (Returned a, w') => k a w'
           | (Raised e, w') => (Raised e, w')
           end.
Definition try_except {A} (body : M A) (handler : exn -> M A) : M A :=
  fun w => match body w with
           | (Returned a, w') => (Returned a, w')
           | (Raised e, w') => handler e w'
           end.
Definition lift {A} (o : outcome A) : M A := fun w => (o, w).

Notation "x <- m ;; k" := (bind m (fun x => k))
  (at level 61, m at next level, right associativity).
Notation "m ;;; k" := (bind m (fun _ => k))
  (at level 61, right associativity).

Definition logging (r : log_record) : M unit :=
  fun w => (Returned tt, {| log := log w ++ [r]; issued := issued w |}).

(** ** Numbers *)

(** Python's truth value of a float: everything but zero. *)
Definition float_truthy (x : Q) : bool := negb (Qeq_bool x 0).

(** [x > 0] on floats *)
Definition Qpositive (x : Q) : bool := negb (Qle_bool x 0).

(** Python's true division [a / b]: [ZeroDivisionError] on a zero divisor.
    The quotient is the exact rational; binary64 rounds it. *)
Definition py_div (a b : Q) : outcome Q :=
  if Qeq_bool b 0 then Raised ZeroDivisionError else Returned (a / b)%Q.

Fixpoint Qsum (l : list Q) : Q :=
  match l with
  | [] => 0%Q
  | x :: l' => (x + Qsum l')%Q
  end.

(** ** The prompt corpus *)

Definition SAMPLE_PROMPTS : list string := [
  "Explain how blockchain technology works, and provide a real-world example of its application outside of cryptocurrency.";
  "Compare and contrast the philosophies of Nietzsche and Kant, including their views on morality and human nature.";
  "Imagine you're a travel blogger. Write a detailed post describing a week-long adventure through rural Japan.";
  "Write a fictional letter from Albert Einstein to a modern-day physicist, discussing the current state of quantum mechanics.";
  "Provide a comprehensive explanation of how transformers work in machine learning, including attention mechanisms and positional encoding.";
  "Draft a business proposal for launching a new AI-powered productivity app, including target audience, key features, and a monetization strategy.";
  "Simulate a panel discussion between Elon Musk, Marie Curie, and Sun Tzu on the topic of 'Leadership in Times of Crisis'.";
  "Describe the process of photosynthesis in depth, and explain its importance in the global carbon cycle.";
  "Analyze the impact of social media on political polarization, citing relevant studies or historical examples.";
  "Write a short science fiction story where humans discover a parallel universe that operates under different physical laws.";
  "Explain the role of the Federal Reserve in the U.S. economy and how it manages inflation and unemployment.";
  "Describe the architecture of a modern web application, from frontend to backend, including databases, APIs, and deployment.";
  "Write an essay discussing whether artificial general intelligence (AGI) poses an existential threat to humanity.";
  "Summarize the key events and consequences of the Cuban Missile Crisis, and reflect on lessons for modern diplomacy.";
  "Create a guide for beginners on how to train a custom LLM using open-source tools and publicly available datasets."
]%string.

(** [random.choice(seq)]: the element at a drawn position, [IndexError] on an
    empty sequence.  [draw] is the random number of this call. *)
Definition random_choice {A} (draw : nat) (seq : list A) : outcome A :=
  match nth_error seq (draw mod length seq) with
  | Some x => Returned x
  | None => Raised IndexError
  end.

(** ** The client collaborator and its stream *)

(** [chunk.choices[k]]: the delta's content and the finish reason. *)
Record choice : Type := {
  delta_content : option string;
  finish_reason : option string
}.

Record chunk : Type := { choices : list choice }.

(** What the reader meets each time it awaits the next item of the stream:
    a fragment (with the reading [time.time()] has at its arrival), an
    exception raised by the transport, or the expiry of the deadline that
    [asyncio.wait_for] put on the reader.  The end of the list is the end of
    the stream. *)
Inductive stream_event : Type :=
| Fragment (now : Q) (c : chunk)
| StreamRaises (e : exn)
| DeadlineExpires.

Definition stream : Type := list stream_event.

(** Everything one call of [make_request] gets from outside: the clock
    readings, the random draw, and what the client does. *)
Record request_env : Type := {
  clock_start : Q;                 (* time.time() on entry *)
  draw : nat;                      (* random.choice *)
  created : exn + stream;          (* await client.chat.completions.create(..) *)
  clock_end : Q                    (* time.time() after the stream *)
}.

(** Truth value of [chunk.choices[0].delta.content]. *)
Definition content_truthy (c : option string) : bool :=
  match c with
  | Some s => negb (String.eqb s "")
  | None => false
  end.

(** How the reader coroutine ends. *)
Inductive reader_outcome : Type :=
| ReaderReturned (first_token_time : option Q) (total_tokens : Z)
| ReaderRaised (e : exn)
| ReaderCancelled.

(** [process_stream]: the loop, with its two locals as accumulators. *)
Fixpoint process_stream_from (s : stream) (first_token_time : option Q)
         (total_tokens : Z) : reader_outcome :=
  match s with
  | [] => ReaderReturned first_token_time total_tokens
  | StreamRaises e :: _ => ReaderRaised e
  | DeadlineExpires :: _ => ReaderCancelled
  | Fragment now c :: rest =>
      let first_token_time :=
        match first_token_time with
        | None => Some now
        | Some t => Some t
        end in
      match choices c with
      | [] => ReaderRaised IndexError
      | c0 :: _ =>
          let total_tokens :=
            if content_truthy (delta_content c0)
            then total_tokens + 1 else total_tokens in
          match finish_reason c0 with
          | Some _ => ReaderReturned first_token_time total_tokens
          | None => process_stream_from rest first_token_time total_tokens
          end
      end
  end.

Definition process_stream (s : stream) : reader_outcome :=
  process_stream_from s None 0.

(** [asyncio.wait_for(coro, timeout)]: the coroutine's own outcome, or
    [TimeoutError] when the deadline cancelled it. *)
Definition wait_for (r : reader_outcome) : M (option Q * Z) :=
  match r with
  | ReaderReturned t n => ret (t, n)
  | ReaderRaised e => raise e
  | ReaderCancelled => raise TimeoutError
  end.

(** ** The request executor *)

(** The tuple [(total_tokens, elapsed_time, tokens_per_second, ttft)];
    each component is a Python value that may be [None]. *)
Definition result : Type := (option Z * option Q * option Q * option Q)%type.

Definition client_create (env : request_env) (model content : string)
           (max_completion_tokens : Z) : M stream :=
  fun w =>
    let w' := {| log := log w;
                 issued := issued w ++
                   [{| req_model := model; req_content := content;
                       req_max_completion_tokens := max_completion_tokens |}] |} in
    match created env with
    | inl e => (Raised e, w')
    | inr s => (Returned s, w')
    end.

(** [first_token_time - start_time if first_token_time else None] *)
Definition ttft_of (first_token_time : option Q) (start_time : Q) : option Q :=
  match first_token_time with
  | Some t => if float_truthy t then Some (t - start_time)%Q else None
  | None => None
  end.

(** [total_tokens / elapsed_time if elapsed_time > 0 else 0] *)
Definition tokens_per_second_of (total_tokens : Z) (elapsed_time : Q) : outcome Q :=
  if Qpositive elapsed_time
  then py_div (inject_Z total_tokens) elapsed_time
  else Returned 0%Q.

Definition make_request (env : request_env) (model : string)
           (max_completion_tokens request_timeout : Z) : M (option result) :=
  let start_time := clock_start env in
  content <- lift (random_choice (draw env) SAMPLE_PROMPTS) ;;
  try_except
    (s <- client_create env model content max_completion_tokens ;;
     r <- wait_for (process_stream s) ;;
     let '(first_token_time, total_tokens) := r in
     let end_time := clock_end env in
     let elapsed_time := (end_time - start_time)%Q in
     let ttft := ttft_of first_token_time start_time in
     tokens_per_second <- lift (tokens_per_second_of total_tokens elapsed_time) ;;
     ret (Some (Some total_tokens, Some elapsed_time, Some tokens_per_second, ttft)))
    (fun e =>
       if is_TimeoutError e then
         logging (LogTimedOut request_timeout) ;;; ret None
       else if is_Exception e then
         logging (LogRequestError e) ;;; ret None
       else raise e).

(** [preflight_check]: one request with 16 tokens at most and 5 seconds. *)
Definition preflight_check (env : request_env) (model : string) : M bool :=
  r <- make_request env model 16 5 ;;
  ret (match r with Some _ => true | None => false end).

(** ** The metrics collector *)

Fixpoint insert_sorted (x : Q) (l : list Q) : list Q :=
  match l with
  | [] => [x]
  | y :: l' => if Qle_bool x y then x :: l else y :: insert_sorted x l'
  end.

Fixpoint sort_samples (l : list Q) : list Q :=
  match l with
  | [] => []
  | x :: l' => insert_sorted x (sort_samples l')
  end.

(** [a + (b - a) * t] *)
Definition lerp (a b t : Q) : Q := (a + (b - a) * t)%Q.

(** The value at the real-valued rank [t] of a sorted array: linear
    interpolation between the two nearest ranks. *)
Definition at_rank (arr : list Q) (t : Q) : Q :=
  let lo := Z.to_nat (Qfloor t) in
  let hi := Nat.min (lo + 1) (length arr - 1) in
  let gamma := (t - inject_Z (Z.of_nat lo))%Q in
  lerp (nth lo arr 0%Q) (nth hi arr 0%Q) gamma.

(** The rank the percentile [q] has among [n] samples: [(n - 1) * q / 100]. *)
Definition virtual_index (n : nat) (q : Q) : Q :=
  (inject_Z (Z.of_nat (n - 1)) * (q / 100))%Q.

(** Modelled from the spec: [numpy.percentile] belongs to the numpy library and
    is not under src/.  The spec describes it as "the value at that percentile
    using linear interpolation between the two nearest ranks (standard
    percentile interpolation)", which is numpy's default method: sort, take the
    rank [(n - 1) * q / 100], interpolate.  numpy refuses a percentile outside
    [0, 100] with [ValueError].  The array is non-empty by construction (numpy
    answers nan for an empty one, which [Q] does not have, and
    [calculate_percentile] never passes one). *)
Definition numpy_percentile (a0 : Q) (rest : list Q) (q : Q) : outcome Q :=
  if Qle_bool 0 q && Qle_bool q 100 then
    let arr := sort_samples (a0 :: rest) in
    Returned (at_rank arr (virtual_index (length arr) q))
  else Raised ValueError.

Definition calculate_percentile (values : list Q) (percentile : Q)
           (reverse : bool) : outcome (option Q) :=
  match values with
  | [] => Returned None
  | a0 :: rest =>
      let q := if reverse then (100 - percentile)%Q else percentile in
      match numpy_percentile a0 rest q with
      | Returned v => Returned (Some v)
      | Raised e => Raised e
      end
  end.

(** [sum(l) / len(l) if l else 0] *)
Definition average (l : list Q) : outcome Q :=
  match l with
  | [] => Returned 0%Q
  | _ :: _ => py_div (Qsum l) (inject_Z (Z.of_nat (length l)))
  end.

(** [successful_requests / total_elapsed_time if total_elapsed_time > 0 else 0] *)
Definition requests_per_second_of (successful_requests : Z)
           (total_elapsed_time : Q) : outcome Q :=
  if Qpositive total_elapsed_time
  then py_div (inject_Z successful_requests) total_elapsed_time
  else Returned 0%Q.

(** [[x for x in l if x is not None]] *)
Fixpoint not_None {A} (l : list (option A)) : list A :=
  match l with
  | [] => []
  | Some x :: l' => x :: not_None l'
  | None :: l' => not_None l'
  end.

Definition tokens_of (r : result) : option Z := fst (fst (fst r)).
Definition elapsed_of (r : result) : option Q := snd (fst (fst r)).
Definition tps_of (r : result) : option Q := snd (fst r).
Definition ttft_field (r : result) : option Q := snd r.

Record stat_block : Type := {
  average_ : Q;
  p50 : option Q;
  p95 : option Q;
  p99 : option Q
}.

Record report : Type := {
  rep_model : string;
  total_requests : Z;
  successful_requests : Z;
  rep_concurrency : Z;
  rep_request_timeout : Z;
  rep_max_completion_tokens : Z;
  total_time : Q;
  requests_per_second : Q;
  total_completion_tokens : Z;
  latency : stat_block;
  tokens_per_second : stat_block;
  time_to_first_token : stat_block
}.

Record config : Type := {
  model : string;
  num_requests : Z;
  concurrency : Z;
  request_timeout : Z;
  max_completion_tokens : Z
}.

Definition latencies_of (results : list result) : list Q :=
  not_None (map elapsed_of results).
Definition tokens_per_second_list_of (results : list result) : list Q :=
  not_None (map tps_of results).
Definition ttft_list_of (results : list result) : list Q :=
  not_None (map ttft_field results).
Definition total_tokens_of (results : list result) : Z :=
  fold_right Z.add 0 (not_None (map tokens_of results)).

Definition obind {A B} (o : outcome A) (k : A -> outcome B) : outcome B :=
  match o with
  | Returned a => k a
  | Raised e => Raised e
  end.

Notation "x <-- o ;; k" := (obind o (fun x => k))
  (at level 61, o at next level, right associativity).

(** The three percentiles of a block, [[50, 95, 99]] in that order. *)
Definition percentile_block (values : list Q) (reverse : bool) (avg : Q)
  : outcome stat_block :=
  a <-- calculate_percentile values 50 reverse ;;
  b <-- calculate_percentile values 95 reverse ;;
  c <-- calculate_percentile values 99 reverse ;;
  Returned {| average_ := avg; p50 := a; p95 := b; p99 := c |}.

(** The end of [main], from "Calculate metrics" to the returned dict. *)
Definition make_report (cfg : config) (results : list result)
           (start_time end_time : Q) : outcome report :=
  let total_elapsed_time := (end_time - start_time)%Q in
  let total_tokens := total_tokens_of results in
  let latencies := latencies_of results in
  let tokens_per_second_list := tokens_per_second_list_of results in
  let ttft_list := ttft_list_of results in
  let successful_requests := Z.of_nat (length results) in
  rps <-- requests_per_second_of successful_requests total_elapsed_time ;;
  avg_latency <-- average latencies ;;
  avg_tokens_per_second <-- average tokens_per_second_list ;;
  avg_ttft <-- average ttft_list ;;
  latency_block <-- percentile_block latencies false avg_latency ;;
  tps_block <-- percentile_block tokens_per_second_list true avg_tokens_per_second ;;
  ttft_block <-- percentile_block ttft_list false avg_ttft ;;
  Returned {|
    rep_model := model cfg;
    total_requests := num_requests cfg;
    successful_requests := successful_requests;
    rep_concurrency := concurrency cfg;
    rep_request_timeout := request_timeout cfg;
    rep_max_completion_tokens := max_completion_tokens cfg;
    total_time := total_elapsed_time;
    requests_per_second := rps;
    total_completion_tokens := total_tokens;
    latency := latency_block;
    tokens_per_second := tps_block;
    time_to_first_token := ttft_block
  |}.

(** ** The worker pool *)

(** Where a worker coroutine is suspended, or how it ended.  A worker ended
    by an exception leaves the others running; that is what asyncio does for
    [CancelledError], while [KeyboardInterrupt] and [SystemExit] also stop
    the event loop, so for these two the pool allows more than can happen. *)
Inductive wstate : Type :=
| WLoop                    (* at [async with semaphore], holding no permit *)
| WGet                     (* holding a permit, parked in [queue.get()] *)
| WReq (task_id : nat)     (* holding a permit, inside [make_request] *)
| WDone                    (* left the loop through [break] *)
| WCrashed (e : exn).      (* ended by an exception *)

(** The objects [main] shares with its workers.  [delivered] is a history,
    not program state: who received which item from [queue.get()]. *)
Record pool : Type := {
  queue : list (option nat);       (* asyncio.Queue, head first *)
  unfinished_tasks : nat;          (* the queue's counter behind join() *)
  semaphore : nat;                 (* free permits *)
  workers : list wstate;
  results : list result;
  delivered : list (nat * option nat);
  outside : world
}.

Fixpoint update_nth {A} (n : nat) (x : A) (l : list A) : list A :=
  match l, n with
  | [], _ => []
  | _ :: l', O => x :: l'
  | y :: l', S n' => y :: update_nth n' x l'
  end.

Definition set_worker (w : nat) (st : wstate) (s : pool) : pool :=
  {| queue := queue s; unfinished_tasks := unfinished_tasks s;
     semaphore := semaphore s; workers := update_nth w st (workers s);
     results := results s; delivered := delivered s; outside := outside s |}.

Definition acquire (s : pool) : pool :=
  {| queue := queue s; unfinished_tasks := unfinished_tasks s;
     semaphore := pred (semaphore s); workers := workers s;
     results := results s; delivered := delivered s; outside := outside s |}.

Definition release (s : pool) : pool :=
  {| queue := queue s; unfinished_tasks := unfinished_tasks s;
     semaphore := S (semaphore s); workers := workers s;
     results := results s; delivered := delivered s; outside := outside s |}.

Definition pool_log (r : log_record) (s : pool) : pool :=
  {| queue := queue s; unfinished_tasks := unfinished_tasks s;
     semaphore := semaphore s; workers := workers s;
     results := results s; delivered := delivered s;
     outside := {| log := log (outside s) ++ [r]; issued := issued (outside s) |} |}.

Definition set_outside (w : world) (s : pool) : pool :=
  {| queue := queue s; unfinished_tasks := unfinished_tasks s;
     semaphore := semaphore s; workers := workers s;
     results := results s; delivered := delivered s; outside := w |}.

Definition append_result (r : result) (s : pool) : pool :=
  {| queue := queue s; unfinished_tasks := unfinished_tasks s;
     semaphore := semaphore s; workers := workers s;
     results := results s ++ [r]; delivered := delivered s; outside := outside s |}.

(** [queue.task_done()]: [ValueError] when called more often than [put]. *)
Definition task_done (s : pool) : outcome pool :=
  match unfinished_tasks s with
  | O => Raised ValueError
  | S n =>
      Returned {| queue := queue s; unfinished_tasks := n;
                  semaphore := semaphore s; workers := workers s;
                  results := results s; delivered := delivered s;
                  outside := outside s |}
  end.

(** [queue.get()] hands [item] to worker [w]. *)
Definition pop (w : nat) (item : option nat) (rest : list (option nat))
           (s : pool) : pool :=
  {| queue := rest; unfinished_tasks := unfinished_tasks s;
     semaphore := semaphore s; workers := workers s;
     results := results s; delivered := delivered s ++ [(w, item)];
     outside := outside s |}.

(** Leaving the [async with] block by [break], by falling through or by an
    exception releases the permit; [k] is where the worker is then. *)
Definition leave (w : nat) (k : wstate) (s : pool) : pool :=
  set_worker w k (release s).

(** The worker, from the item it has just got to its next suspension. *)
Definition got (w : nat) (item : option nat) (s : pool) : pool :=
  match item with
  | None =>
      match task_done s with
      | Returned s' => leave w WDone s'
      | Raised e => leave w (WCrashed e) s
      end
  | Some task_id => set_worker w (WReq task_id) (pool_log (LogStarting task_id) s)
  end.

(** The worker, from the return of [make_request] to the loop's top.  A
    tuple of four is true whatever it holds, so [if result] tells a tuple
    from [None]. *)
Definition after_request (cfg : config) (w task_id : nat) (env : request_env)
           (s : pool) : pool :=
  match make_request env (model cfg) (max_completion_tokens cfg)
                     (request_timeout cfg) (outside s) with
  | (Raised e, o) => leave w (WCrashed e) (set_outside o s)
  | (Returned res, o) =>
      let s1 := set_outside o s in
      let s2 := match res with
                | Some r => append_result r s1
                | None => pool_log (LogFailed task_id) s1
                end in
      match task_done s2 with
      | Raised e => leave w (WCrashed e) s2
      | Returned s3 => leave w WLoop (pool_log (LogFinished task_id) s3)
      end
  end.

(** What the event loop can do next: run worker [w] from the loop's top to
    its next suspension, or deliver to worker [w] the whole exchange [env] of
    the request it is waiting for. *)
Inductive action : Type :=
| Next (w : nat)
| Reply (w : nat) (env : request_env).

(** One atomic step; [None] when the action is not enabled (the worker is
    blocked, ended, or in another place). *)
Definition step (cfg : config) (s : pool) (a : action) : option pool :=
  match a with
  | Next w =>
      match nth_error (workers s) w with
      | Some WLoop =>
          match semaphore s with
          | O => None
          | S _ =>
              let s1 := acquire s in
              match queue s1 with
              | [] => Some (set_worker w WGet s1)
              | item :: rest => Some (got w item (pop w item rest s1))
              end
          end
      | Some WGet =>
          match queue s with
          | [] => None
          | item :: rest => Some (got w item (pop w item rest s))
          end
      | _ => None
      end
  | Reply w env =>
      match nth_error (workers s) w with
      | Some (WReq task_id) => Some (after_request cfg w task_id env s)
      | _ => None
      end
  end.

(** An execution of a schedule; [None] when some action is not enabled. *)
Fixpoint run (cfg : config) (s : pool) (sched : list action) : option pool :=
  match sched with
  | [] => Some s
  | a :: rest =>
      match step cfg s a with
      | Some s' => run cfg s' rest
      | None => None
      end
  end.

(** ** The orchestrator *)

(** [range(n)] *)
Definition range (n : Z) : list nat := seq 0 (Z.to_nat n).

(** [asyncio.Semaphore(value)] *)
Definition Semaphore (value : Z) : outcome nat :=
  if value <? 0 then Raised ValueError else Returned (Z.to_nat value).

(** [main] from the semaphore to the creation of the worker tasks. *)
Definition start_pool (cfg : config) : M pool :=
  fun w =>
    match Semaphore (concurrency cfg) with
    | Raised e => (Raised e, w)
    | Returned permits =>
        let q := map Some (range (num_requests cfg))
                 ++ map (fun _ => None) (range (concurrency cfg)) in
        (Returned {| queue := q;
                     unfinished_tasks := length q;
                     semaphore := permits;
                     workers := map (fun _ => WLoop) (range (concurrency cfg));
                     results := [];
                     delivered := [];
                     outside := w |}, w)
    end.

Definition ended (st : wstate) : bool :=
  match st with
  | WDone | WCrashed _ => true
  | _ => false
  end.

Fixpoint first_exception (ws : list wstate) : option exn :=
  match ws with
  | [] => None
  | WCrashed e :: _ => Some e
  | _ :: ws' => first_exception ws'
  end.

(** [queue.join()] has returned and [gather] has every worker's end. *)
Definition drained (s : pool) : bool :=
  (unfinished_tasks s =? 0)%nat && forallb ended (workers s).

Inductive main_answer : Type :=
| GaveReport (r : report)     (* the returned dict *)
| GaveNone                    (* the bare [return] after a failed preflight *)
| Waiting (s : pool)          (* still in [queue.join()] or [gather] *)
| NotAnExecution.             (* the schedule names an action not enabled *)

Definition main (cfg : config) (preflight : request_env) (sched : list action)
           (start_time end_time : Q) : M main_answer :=
  ok <- preflight_check preflight (model cfg) ;;
  if negb ok then
    logging LogPreflightFailed ;;; ret GaveNone
  else
    s0 <- start_pool cfg ;;
    match run cfg s0 sched with
    | None => ret NotAnExecution
    | Some s =>
        fun _ =>
          if drained s then
            match first_exception (workers s) with
            | Some e => (Raised e, outside s)
            | None =>
                match make_report cfg (results s) start_time end_time with
                | Returned r => (Returned (GaveReport r), outside s)
                | Raised e => (Raised e, outside s)
                end
            end
          else (Returned (Waiting s), outside s)
    end.

(** ** Vocabulary of the statements *)

(** The exception a request meets, if any: raised while the request is
    issued, or while the stream is read up to where the reader stops. *)
Definition exception_met (env : request_env) : option exn :=
  match created env with
  | inl e => Some e
  | inr s =>
      match process_stream s with
      | ReaderRaised e => Some e
      | _ => None
      end
  end.

(** Every exception the request meets derives from [Exception]. *)
Definition benign (env : request_env) : bool :=
  match exception_met env with
  | Some e => is_Exception e
  | None => true
  end.

Definition benign_action (a : action) : bool :=
  match a with
  | Next _ => true
  | Reply _ env => benign env
  end.

(** The clock reading at the first fragment the stream delivers. *)
Definition first_arrival (s : stream) : option Q :=
  match s with
  | Fragment now _ :: _ => Some now
  | _ => None
  end.

(** The stream holds a fragment with non-empty content. *)
Definition produced_increment (s : stream) : bool :=
  existsb (fun ev =>
             match ev with
             | Fragment _ c =>
                 match choices c with
                 | c0 :: _ => content_truthy (delta_content c0)
                 | [] => false
                 end
             | _ => false
             end) s.

(** What the executor returns for an exchange, whatever the log holds. *)
Definition request_result (cfg : config) (env : request_env) : outcome (option result) :=
  fst (make_request env (model cfg) (max_completion_tokens cfg)
                    (request_timeout cfg) empty_world).

(** The populated results of the executor calls of a schedule, in order. *)
Fixpoint populated (cfg : config) (sched : list action) : list result :=
  match sched with
  | [] => []
  | Reply _ env :: rest =>
      match request_result cfg env with
      | Returned (Some r) => r :: populated cfg rest
      | _ => populated cfg rest
      end
  | Next _ :: rest => populated cfg rest
  end.

(** The number of executor calls of a schedule that returned [None]. *)
Fixpoint failures (cfg : config) (sched : list action) : nat :=
  match sched with
  | [] => O
  | Reply _ env :: rest =>
      match request_result cfg env with
      | Returned None => S (failures cfg rest)
      | _ => failures cfg rest
      end
  | Next _ :: rest => failures cfg rest
  end.

(** The number of "Request .. failed" warnings in a log. *)
Fixpoint failed_logged (l : list log_record) : nat :=
  match l with
  | [] => O
  | LogFailed _ :: l' => S (failed_logged l')
  | _ :: l' => failed_logged l'
  end.

(** Only the time to the first fragment may be [None]. *)
Definition well_formed (r : result) : Prop :=
  exists n el tps ttft, r = (Some n, Some el, Some tps, ttft).

Definition tally (f : wstate -> nat) (ws : list wstate) : nat :=
  list_sum (map f ws).

Definition holding (st : wstate) : nat :=
  match st with WGet | WReq _ => 1%nat | _ => O end.
Definition in_request (st : wstate) : nat :=
  match st with WReq _ => 1%nat | _ => O end.
Definition crashed (st : wstate) : nat :=
  match st with WCrashed _ => 1%nat | _ => O end.
Definition done (st : wstate) : nat :=
  match st with WDone => 1%nat | _ => O end.

Definition is_sentinel (item : option nat) : bool :=
  match item with None => true | Some _ => false end.

Definition sentinels_in (q : list (option nat)) : nat :=
  length (filter is_sentinel q).

(** The task indices handed out so far, in order of delivery. *)
Definition tasks_delivered (s : pool) : list nat :=
  not_None (map snd (delivered s)).

(** The workers that received a sentinel, in order of delivery. *)
Definition sentinel_takers (s : pool) : list nat :=
  map fst (filter (fun d => is_sentinel (snd d)) (delivered s)).

(** The steps a worker in this place can still make, at most. *)
Definition weight (st : wstate) : nat :=
  match st with
  | WReq _ => 3%nat
  | WLoop => 2%nat
  | WGet => 1%nat
  | WDone | WCrashed _ => O
  end.

Definition measure (s : pool) : nat :=
  (3 * length (queue s) + tally weight (workers s))%nat.

(** What holds of every pool [main] can reach with [n] tasks and [c]
    workers. *)
Record pool_inv (n c : nat) (s : pool) : Prop := {
  inv_workers : length (workers s) = c;
  inv_permits : (semaphore s + tally holding (workers s))%nat = c;
  inv_unfinished :
    unfinished_tasks s
    = (length (queue s) + tally in_request (workers s) + tally crashed (workers s))%nat;
  inv_history :
    map snd (delivered s) ++ queue s = map Some (seq 0 n) ++ repeat None c;
  inv_sentinels :
    (sentinels_in (queue s) + tally done (workers s))%nat = c;
  inv_takers_distinct : NoDup (sentinel_takers s);
  inv_takers_done :
    forall w, In w (sentinel_takers s) <-> nth_error (workers s) w = Some WDone
}.

(** Concrete exchanges and schedules *)

Definition text_chunk (s : string) : chunk :=
  {| choices := [{| delta_content := Some s; finish_reason := None |}] |}.

Definition stop_chunk : chunk :=
  {| choices := [{| delta_content := None; finish_reason := Some "stop"%string |}] |}.

(** Two increments, then the terminal fragment; 4 seconds in all. *)
Definition env_ok : request_env :=
  {| clock_start := 10; draw := 3;
     created := inr [Fragment 11 (text_chunk "Hello"); Fragment 12 (text_chunk " world");
                     Fragment 13 stop_chunk];
     clock_end := 14 |}.

(** A stream whose only fragment is terminal and carries no content. *)
Definition env_silent : request_env :=
  {| clock_start := 10; draw := 0;
     created := inr [Fragment 11 stop_chunk];
     clock_end := 12 |}.

(** A stream that ends at once, without any fragment. *)
Definition env_empty : request_env :=
  {| clock_start := 10; draw := 0; created := inr []; clock_end := 12 |}.

(** The clock does not advance between start and end. *)
Definition env_instant : request_env :=
  {| clock_start := 10; draw := 0;
     created := inr [Fragment 10 (text_chunk "Hi"); Fragment 10 stop_chunk];
     clock_end := 10 |}.

(** The deadline expires after the first increment. *)
Definition env_timeout : request_env :=
  {| clock_start := 10; draw := 7;
     created := inr [Fragment 11 (text_chunk "Hello"); DeadlineExpires];
     clock_end := 0 |}.

(** The transport fails while the request is issued. *)
Definition env_refused : request_env :=
  {| clock_start := 10; draw := 20;
     created := inl (OtherException "connection refused");
     clock_end := 0 |}.

(** The awaiting task is cancelled while the request is issued. *)
Definition env_cancelled : request_env :=
  {| clock_start := 10; draw := 1; created := inl CancelledError; clock_end := 0 |}.

Definition cfg_2_2 : config :=
  {| model := "m"; num_requests := 2; concurrency := 2;
     request_timeout := 300; max_completion_tokens := 128 |}.

(** One request, no worker. *)
Definition cfg_1_0 : config :=
  {| model := "m"; num_requests := 1; concurrency := 0;
     request_timeout := 300; max_completion_tokens := 128 |}.

(** Both workers take a task; the second request succeeds and the first
    times out; then both workers take a sentinel. *)
Definition sched_2_2 : list action :=
  [Next 0; Next 1; Reply 1 env_ok; Reply 0 env_timeout; Next 0; Next 1]%nat.

(** The world in which [main] starts its pool after a preflight on
    [env_ok]. *)
Definition world_after_preflight : world :=
  snd (preflight_check env_ok "m" empty_world).

Definition pool_2_2 : pool :=
  {| queue := [Some 0; Some 1; None; None]%nat;
     unfinished_tasks := 4;
     semaphore := 2;
     workers := [WLoop; WLoop];
     results := [];
     delivered := [];
     outside := world_after_preflight |}.

(** The task indices accounted for: answered, logged as failed, or in
    flight. *)
Definition accounted (s : pool) : nat :=
  (length (results s) + failed_logged (log (outside s))
   + tally in_request (workers s))%nat.

(** How two pools compare when the second comes after the first. *)
Record later (cfg : config) (sched : list action) (s s' : pool) : Prop := {
  later_measure : (length sched + measure s' <= measure s)%nat;
  later_results : results s' = results s ++ populated cfg sched;
  later_failed :
    failed_logged (log (outside s'))
    = (failed_logged (log (outside s)) + failures cfg sched)%nat;
  later_accounted_le :
    (accounted s' + length (tasks_delivered s)
     <= accounted s + length (tasks_delivered s'))%nat;
  later_accounted_ge :
    (length (tasks_delivered s') + accounted s + tally crashed (workers s)
     <= length (tasks_delivered s) + accounted s' + tally crashed (workers s'))%nat;
  later_crashed :
    forallb benign_action sched = true ->
    tally crashed (workers s') = tally crashed (workers s);
  later_well_formed :
    Forall well_formed (results s) -> Forall well_formed (results s')
}.

(** The three percentiles of a block do not decrease (or all are [None]). *)
Definition ascending (b : stat_block) : Prop :=
  match p50 b, p95 b, p99 b with
  | Some x, Some y, Some z => (x <= y)%Q /\ (y <= z)%Q
  | None, None, None => True
  | _, _, _ => False
  end.

(** The three percentiles of a block do not increase (or all are [None]). *)
Definition descending (b : stat_block) : Prop :=
  match p50 b, p95 b, p99 b with
  | Some x, Some y, Some z => (y <= x)%Q /\ (z <= y)%Q
  | None, None, None => True
  | _, _, _ => False
  end.

(** The pool of [cfg_1_0]: one task, no sentinel, no worker. *)
Definition pool_1_0 : pool :=
  {| queue := [Some 0%nat];
     unfinished_tasks := 1;
     semaphore := 0;
     workers := [];
     results := [];
     delivered := [];
     outside := world_after_preflight |}.

(** The pool [sched_2_2] leaves behind. *)
Definition final_2_2 : pool :=
  match run cfg_2_2 pool_2_2 sched_2_2 with
  | Some s => s
  | None => pool_2_2
  end.

(** ** Vocabulary of the further properties *)

(** The event is a fragment whose first choice has non-empty content. *)
Definition bears_content (ev : stream_event) : bool :=
  match ev with
  | Fragment _ c =>
      match choices c with
      | c0 :: _ => content_truthy (delta_content c0)
      | [] => false
      end
  | _ => false
  end.

(** The number of fragments of a stream that carry content. *)
Definition content_count (s : stream) : Z :=
  Z.of_nat (length (filter bears_content s)).

(** The event is a fragment with a first choice and no finish reason: the
    reader goes on to the next event. *)
Definition ongoing (ev : stream_event) : bool :=
  match ev with
  | Fragment _ c =>
      match choices c with
      | c0 :: _ =>
          match finish_reason c0 with
          | None => true
          | Some _ => false
          end
      | [] => false
      end
  | _ => false
  end.

(** The chunk has a first choice with a finish reason. *)
Definition terminal (c : chunk) : bool :=
  match choices c with
  | c0 :: _ =>
      match finish_reason c0 with
      | Some _ => true
      | None => false
      end
  | [] => false
  end.

(** The number of requests whose answer a schedule delivers. *)
Fixpoint replies (sched : list action) : nat :=
  match sched with
  | [] => O
  | Reply _ _ :: rest => S (replies rest)
  | Next _ :: rest => replies rest
  end.

(** The number of "Starting request .." records in a log. *)
Fixpoint started_logged (l : list log_record) : nat :=
  match l with
  | [] => O
  | LogStarting _ :: l' => S (started_logged l')
  | _ :: l' => started_logged l'
  end.

(** The number of "Finished request .." records in a log. *)
Fixpoint finished_logged (l : list log_record) : nat :=
  match l with
  | [] => O
  | LogFinished _ :: l' => S (finished_logged l')
  | _ :: l' => finished_logged l'
  end.

(** A stream with a chunk that has no choices after one increment. *)
Definition env_malformed : request_env :=
  {| clock_start := 10; draw := 2;
     created := inr [Fragment 11 (text_chunk "Hello");
                     Fragment 12 {| choices := [] |};
                     Fragment 13 stop_chunk];
     clock_end := 14 |}.

(** Negative concurrency. *)
Definition cfg_negative : config :=
  {| model := "m"; num_requests := 2; concurrency := -1;
     request_timeout := 300; max_completion_tokens := 128 |}.

(** The first worker's request is cancelled. *)
Definition sched_crash : list action :=
  [Next 0; Next 1; Reply 0 env_cancelled; Reply 1 env_ok; Next 1]%nat.

Definition final_crash : pool :=
  match run cfg_2_2 pool_2_2 sched_crash with
  | Some s => s
  | None => pool_2_2
  end.

(** Both requests fail: one times out, one is refused. *)
Definition sched_all_fail : list action :=
  [Next 0; Next 1; Reply 0 env_timeout; Reply 1 env_refused; Next 0; Next 1]%nat.

(** The block of a metric without samples. *)
Definition empty_block : stat_block :=
  {| average_ := 0; p50 := None; p95 := None; p99 := None |}.

(** * Properties *)

(** ** Numbers *)

Lemma Qpositive_true (x : Q) : Qpositive x = true <-> (0 < x)%Q.
Proof.
  unfold Qpositive. rewrite negb_true_iff.
  split; intros H.
  - apply Qnot_le_lt. intros Hle. apply Qle_bool_iff in Hle. congruence.
  - destruct (Qle_bool x 0) eqn:E; [|reflexivity].
    apply Qle_bool_iff in E. exfalso. apply (Qlt_not_le _ _ H E).
Qed.

Lemma Qpositive_false (x : Q) : Qpositive x = false <-> (x <= 0)%Q.
Proof.
  unfold Qpositive. rewrite negb_false_iff. apply Qle_bool_iff.
Qed.

Lemma Qpositive_nonzero (x : Q) : Qpositive x = true -> Qeq_bool x 0 = false.
Proof.
  intros H. apply Qpositive_true in H.
  destruct (Qeq_bool x 0) eqn:E; [|reflexivity].
  apply Qeq_bool_iff in E. rewrite E in H. exfalso. apply (Qlt_irrefl _ H).
Qed.

Lemma guarded_div (a b : Q) :
  (if Qpositive b then py_div a b else Returned 0%Q)
  = Returned (if Qpositive b then (a / b)%Q else 0%Q).
Proof.
  destruct (Qpositive b) eqn:E; [|reflexivity].
  unfold py_div. rewrite (Qpositive_nonzero _ E). reflexivity.
Qed.

Lemma tokens_per_second_of_total (n : Z) (el : Q) :
  tokens_per_second_of n el
  = Returned (if Qpositive el then (inject_Z n / el)%Q else 0%Q).
Proof. apply guarded_div. Qed.

Lemma requests_per_second_of_total (n : Z) (el : Q) :
  requests_per_second_of n el
  = Returned (if Qpositive el then (inject_Z n / el)%Q else 0%Q).
Proof. apply guarded_div. Qed.

(** ** The request executor *)

Lemma random_choice_nonempty {A} (d : nat) (l : list A) :
  l <> [] -> exists x, random_choice d l = Returned x.
Proof.
  intros Hl. unfold random_choice.
  destruct (nth_error l (d mod length l)) as [x|] eqn:E.
  - exists x. reflexivity.
  - apply nth_error_None in E.
    assert (length l <> 0)%nat by (destruct l; simpl; congruence).
    pose proof (Nat.mod_upper_bound d (length l) H). lia.
Qed.

Lemma random_choice_prompts (d : nat) :
  exists c, random_choice d SAMPLE_PROMPTS = Returned c.
Proof. apply random_choice_nonempty. discriminate. Qed.

(** The world once the request has been handed to the client. *)
Lemma make_request_success env m mx rt w s t n :
  created env = inr s ->
  process_stream s = ReaderReturned t n ->
  exists w',
    log w' = log w /\
    make_request env m mx rt w
    = (Returned (Some (Some n,
                       Some (clock_end env - clock_start env)%Q,
                       Some (if Qpositive (clock_end env - clock_start env)
                             then (inject_Z n / (clock_end env - clock_start env))%Q
                             else 0%Q),
                       ttft_of t (clock_start env))), w').
Proof.
  intros Hc Hs. destruct (random_choice_prompts (draw env)) as [c Hr].
  cbv [make_request bind lift try_except client_create].
  rewrite Hr, Hc, Hs. cbv [wait_for ret].
  rewrite tokens_per_second_of_total.
  eexists. split; [|reflexivity]. reflexivity.
Qed.

Lemma make_request_deadline env m mx rt w s :
  created env = inr s ->
  process_stream s = ReaderCancelled ->
  exists w',
    log w' = log w ++ [LogTimedOut rt] /\
    make_request env m mx rt w = (Returned None, w').
Proof.
  intros Hc Hs. destruct (random_choice_prompts (draw env)) as [c Hr].
  cbv [make_request bind lift try_except client_create].
  rewrite Hr, Hc, Hs. cbv [wait_for raise is_TimeoutError logging ret].
  eexists. split; [|reflexivity]. reflexivity.
Qed.

Lemma make_request_exception env m mx rt w e :
  exception_met env = Some e ->
  exists w',
    make_request env m mx rt w
    = (if is_Exception e then Returned None else Raised e, w') /\
    log w' = if is_TimeoutError e then log w ++ [LogTimedOut rt]
             else if is_Exception e then log w ++ [LogRequestError e]
             else log w.
Proof.
  unfold exception_met. intros He.
  destruct (random_choice_prompts (draw env)) as [c Hr].
  cbv [make_request bind lift try_except client_create]. rewrite Hr.
  destruct (created env) as [e'|s].
  - inversion He; subst e'.
    destruct e; cbv [is_TimeoutError is_Exception logging ret raise];
      eexists; split; reflexivity.
  - destruct (process_stream s) as [t n|e'|]; try discriminate.
    inversion He; subst e'.
    destruct e; cbv [wait_for is_TimeoutError is_Exception logging ret raise];
      eexists; split; reflexivity.
Qed.

(** The three ways a request can go. *)
Lemma request_cases env :
  (exists s t n, created env = inr s /\ process_stream s = ReaderReturned t n
                 /\ exception_met env = None)
  \/ (exists s, created env = inr s /\ process_stream s = ReaderCancelled
                /\ exception_met env = None)
  \/ (exists e, exception_met env = Some e).
Proof.
  unfold exception_met. destruct (created env) as [e|s].
  - right; right. exists e. reflexivity.
  - destruct (process_stream s) as [t n|e|] eqn:E.
    + left. exists s, t, n. auto.
    + right; right. exists e. reflexivity.
    + right; left. exists s. auto.
Qed.

(** The returned value does not depend on the log. *)
Lemma make_request_result_world env m mx rt w1 w2 :
  fst (make_request env m mx rt w1) = fst (make_request env m mx rt w2).
Proof.
  destruct (request_cases env) as [(s & t & n & Hc & Hs & _)|[(s & Hc & Hs & _)|(e & He)]].
  - destruct (make_request_success env m mx rt w1 s t n Hc Hs) as (? & _ & ->).
    destruct (make_request_success env m mx rt w2 s t n Hc Hs) as (? & _ & ->).
    reflexivity.
  - destruct (make_request_deadline env m mx rt w1 s Hc Hs) as (? & _ & ->).
    destruct (make_request_deadline env m mx rt w2 s Hc Hs) as (? & _ & ->).
    reflexivity.
  - destruct (make_request_exception env m mx rt w1 e He) as (? & -> & _).
    destruct (make_request_exception env m mx rt w2 e He) as (? & -> & _).
    reflexivity.
Qed.

(** A populated result has the first three components. *)
Lemma make_request_well_formed env m mx rt w r w' :
  make_request env m mx rt w = (Returned (Some r), w') -> well_formed r.
Proof.
  intros H.
  destruct (request_cases env) as [(s & t & n & Hc & Hs & _)|[(s & Hc & Hs & _)|(e & He)]].
  - destruct (make_request_success env m mx rt w s t n Hc Hs) as (? & _ & E).
    rewrite E in H. inversion H; subst. unfold well_formed. eauto.
  - destruct (make_request_deadline env m mx rt w s Hc Hs) as (? & _ & E).
    rewrite E in H. discriminate.
  - destruct (make_request_exception env m mx rt w e He) as (? & E & _).
    rewrite E in H. destruct (is_Exception e); discriminate.
Qed.

(** An exchange that meets no exception outside the [Exception] hierarchy
    returns. *)
Lemma make_request_benign env m mx rt w :
  benign env = true ->
  exists r w', make_request env m mx rt w = (Returned r, w').
Proof.
  unfold benign. intros Hb.
  destruct (request_cases env) as [(s & t & n & Hc & Hs & _)|[(s & Hc & Hs & _)|(e & He)]].
  - destruct (make_request_success env m mx rt w s t n Hc Hs) as (? & _ & E). eauto.
  - destruct (make_request_deadline env m mx rt w s Hc Hs) as (? & _ & E). eauto.
  - destruct (make_request_exception env m mx rt w e He) as (? & E & _).
    rewrite He in Hb. rewrite Hb in E. eauto.
Qed.

Lemma process_stream_from_keeps_first (s : stream) (t0 : Q) (z : Z)
      (t : option Q) (n : Z) :
  process_stream_from s (Some t0) z = ReaderReturned t n -> t = Some t0.
Proof.
  revert z. induction s as [|[now c|e|] rest IH]; intros z; simpl.
  - intros H. inversion H. reflexivity.
  - destruct (choices c) as [|c0 cs]; [discriminate|].
    destruct (finish_reason c0).
    + intros H. inversion H. reflexivity.
    + apply IH.
  - discriminate.
  - discriminate.
Qed.

(** The reader's first component is the arrival of the first fragment. *)
Lemma process_stream_first_arrival (s : stream) (t : option Q) (n : Z) :
  process_stream s = ReaderReturned t n -> t = first_arrival s.
Proof.
  unfold process_stream. destruct s as [|[now c|e|] rest]; simpl.
  - intros H. inversion H. reflexivity.
  - destruct (choices c) as [|c0 cs]; [discriminate|].
    destruct (finish_reason c0).
    + intros H. inversion H. reflexivity.
    + apply process_stream_from_keeps_first.
  - discriminate.
  - discriminate.
Qed.

Lemma float_truthy_nonzero (t : Q) : ~ (t == 0)%Q -> float_truthy t = true.
Proof.
  intros H. unfold float_truthy. destruct (Qeq_bool t 0) eqn:E; [|reflexivity].
  apply Qeq_bool_iff in E. contradiction.
Qed.

(** ** The metrics collector *)

Lemma insert_sorted_length (x : Q) (l : list Q) :
  length (insert_sorted x l) = S (length l).
Proof.
  induction l as [|y l IH]; simpl; [reflexivity|].
  destruct (Qle_bool x y); simpl; [reflexivity|]. rewrite IH. reflexivity.
Qed.

Lemma sort_samples_length (l : list Q) : length (sort_samples l) = length l.
Proof.
  induction l as [|x l IH]; simpl; [reflexivity|].
  rewrite insert_sorted_length, IH. reflexivity.
Qed.

Lemma percentile_in_range (q : Q) :
  (0 <= q)%Q -> (q <= 100)%Q -> Qle_bool 0 q && Qle_bool q 100 = true.
Proof.
  intros H0 H1. apply andb_true_iff. split; apply Qle_bool_iff; assumption.
Qed.

Lemma reverse_in_range (p : Q) :
  (0 <= p)%Q -> (p <= 100)%Q -> (0 <= 100 - p)%Q /\ (100 - p <= 100)%Q.
Proof. intros H0 H1. split; lra. Qed.

Lemma calculate_percentile_value (a0 : Q) (rest : list Q) (p : Q) (reverse : bool) :
  (0 <= p)%Q -> (p <= 100)%Q ->
  calculate_percentile (a0 :: rest) p reverse
  = Returned (Some (at_rank (sort_samples (a0 :: rest))
                            (virtual_index (length (a0 :: rest))
                                           (if reverse then (100 - p)%Q else p)))).
Proof.
  intros H0 H1. unfold calculate_percentile, numpy_percentile.
  assert (Hq : Qle_bool 0 (if reverse then (100 - p)%Q else p)
               && Qle_bool (if reverse then (100 - p)%Q else p) 100 = true).
  { destruct reverse.
    - destruct (reverse_in_range p H0 H1). apply percentile_in_range; assumption.
    - apply percentile_in_range; assumption. }
  rewrite Hq. rewrite sort_samples_length. reflexivity.
Qed.

Lemma average_total (l : list Q) : exists a, average l = Returned a.
Proof.
  destruct l as [|x l]; [exists 0%Q; reflexivity|].
  unfold average, py_div.
  destruct (Qeq_bool (inject_Z (Z.of_nat (length (x :: l)))) 0) eqn:E.
  - apply Qeq_bool_iff in E. unfold Qeq in E. simpl in E. lia.
  - eexists. reflexivity.
Qed.

Lemma percentile_block_total (values : list Q) (reverse : bool) (avg : Q) :
  exists a b c,
    calculate_percentile values 50 reverse = Returned a /\
    calculate_percentile values 95 reverse = Returned b /\
    calculate_percentile values 99 reverse = Returned c /\
    percentile_block values reverse avg
    = Returned {| average_ := avg; p50 := a; p95 := b; p99 := c |}.
Proof.
  unfold percentile_block.
  destruct values as [|a0 rest].
  - exists None, None, None. repeat split; reflexivity.
  - rewrite !calculate_percentile_value by (unfold Qle; simpl; lia).
    do 3 eexists. repeat split; reflexivity.
Qed.

(** The report is always assembled: no division and no percentile raises. *)
Lemma make_report_total (cfg : config) (rs : list result) (t0 t1 : Q) :
  exists r,
    make_report cfg rs t0 t1 = Returned r /\
    total_requests r = num_requests cfg /\
    successful_requests r = Z.of_nat (length rs) /\
    total_time r = (t1 - t0)%Q /\
    requests_per_second r
    = (if Qpositive (t1 - t0)
       then (inject_Z (Z.of_nat (length rs)) / (t1 - t0))%Q else 0%Q) /\
    total_completion_tokens r = total_tokens_of rs /\
    (exists a, percentile_block (latencies_of rs) false a = Returned (latency r)) /\
    (exists a, percentile_block (tokens_per_second_list_of rs) true a
               = Returned (tokens_per_second r)) /\
    (exists a, percentile_block (ttft_list_of rs) false a
               = Returned (time_to_first_token r)).
Proof.
  unfold make_report. cbv zeta.
  rewrite requests_per_second_of_total. cbn [obind].
  destruct (average_total (latencies_of rs)) as [a1 ->]. cbn [obind].
  destruct (average_total (tokens_per_second_list_of rs)) as [a2 ->]. cbn [obind].
  destruct (average_total (ttft_list_of rs)) as [a3 ->]. cbn [obind].
  destruct (percentile_block_total (latencies_of rs) false a1)
    as (x1 & y1 & z1 & _ & _ & _ & H1).
  destruct (percentile_block_total (tokens_per_second_list_of rs) true a2)
    as (x2 & y2 & z2 & _ & _ & _ & H2).
  destruct (percentile_block_total (ttft_list_of rs) false a3)
    as (x3 & y3 & z3 & _ & _ & _ & H3).
  rewrite H1, H2, H3. cbn [obind].
  eexists. split; [reflexivity|]. cbn.
  repeat split; try reflexivity; eexists; eassumption.
Qed.

(** *** Sorting *)

Lemma insert_sorted_In (x z : Q) (l : list Q) :
  In z (insert_sorted x l) -> z = x \/ In z l.
Proof.
  induction l as [|y l IH]; simpl.
  - intros [H|[]]. left. symmetry. exact H.
  - destruct (Qle_bool x y); simpl.
    + intros [H|H]; [left; symmetry; exact H|right; exact H].
    + intros [H|H]; [right; left; exact H|].
      destruct (IH H) as [E|E]; [left; exact E|right; right; exact E].
Qed.

Lemma insert_sorted_sorted (x : Q) (l : list Q) :
  StronglySorted Qle l -> StronglySorted Qle (insert_sorted x l).
Proof.
  induction 1 as [|y l Hs IH Hall]; simpl.
  - constructor; constructor.
  - destruct (Qle_bool x y) eqn:E.
    + apply Qle_bool_iff in E. constructor.
      * constructor; assumption.
      * constructor; [exact E|].
        rewrite Forall_forall in *. intros z Hz.
        apply Qle_trans with y; [exact E|apply Hall; exact Hz].
    + constructor; [exact IH|].
      rewrite Forall_forall in *. intros z Hz.
      destruct (insert_sorted_In _ _ _ Hz) as [->|Hin].
      * apply Qlt_le_weak. apply Qnot_le_lt. intros Hle.
        apply Qle_bool_iff in Hle. congruence.
      * apply Hall. exact Hin.
Qed.

Lemma sort_samples_sorted (l : list Q) : StronglySorted Qle (sort_samples l).
Proof.
  induction l as [|x l IH]; simpl; [constructor|].
  apply insert_sorted_sorted. exact IH.
Qed.

Lemma sorted_nth (l : list Q) :
  StronglySorted Qle l ->
  forall i j, (i <= j)%nat -> (j < length l)%nat ->
              (nth i l 0 <= nth j l 0)%Q.
Proof.
  induction 1 as [|y l Hs IH Hall]; intros i j Hij Hj; simpl in Hj; [lia|].
  destruct i as [|i], j as [|j]; simpl.
  - apply Qle_refl.
  - rewrite Forall_forall in Hall. apply Hall. apply nth_In. lia.
  - lia.
  - apply IH; lia.
Qed.

(** *** Interpolation *)

Lemma lerp_between (a b g : Q) :
  (a <= b)%Q -> (0 <= g)%Q -> (g <= 1)%Q ->
  (a <= lerp a b g)%Q /\ (lerp a b g <= b)%Q.
Proof. unfold lerp. intros Hab H0 H1. split; nra. Qed.

Lemma lerp_monotone (a b g1 g2 : Q) :
  (a <= b)%Q -> (g1 <= g2)%Q -> (lerp a b g1 <= lerp a b g2)%Q.
Proof. unfold lerp. intros Hab Hg. nra. Qed.

(** The integer part of a rank within the array. *)
Lemma rank_floor (n : nat) (t : Q) :
  (0 <= t)%Q -> (t <= inject_Z (Z.of_nat (n - 1)))%Q ->
  (Z.to_nat (Qfloor t) <= n - 1)%nat /\
  (0 <= t - inject_Z (Z.of_nat (Z.to_nat (Qfloor t))))%Q /\
  (t - inject_Z (Z.of_nat (Z.to_nat (Qfloor t))) <= 1)%Q.
Proof.
  intros H0 H1.
  assert (Hf0 : 0 <= Qfloor t).
  { change 0 with (Qfloor (inject_Z 0)). apply Qfloor_resp_le. exact H0. }
  assert (Hf1 : Qfloor t <= Z.of_nat (n - 1)).
  { rewrite <- (Qfloor_Z (Z.of_nat (n - 1))). apply Qfloor_resp_le. exact H1. }
  rewrite Z2Nat.id by exact Hf0.
  pose proof (Qfloor_le t) as Hl. pose proof (Qlt_floor t) as Hu.
  rewrite inject_Z_plus in Hu.
  repeat split; [lia|lra|].
  change (inject_Z 1) with 1%Q in Hu. lra.
Qed.

Lemma at_rank_between (arr : list Q) (t : Q) :
  StronglySorted Qle arr -> arr <> [] ->
  (0 <= t)%Q -> (t <= inject_Z (Z.of_nat (length arr - 1)))%Q ->
  (nth (Z.to_nat (Qfloor t)) arr 0 <= at_rank arr t)%Q /\
  (at_rank arr t
   <= nth (Nat.min (Z.to_nat (Qfloor t) + 1) (length arr - 1)) arr 0)%Q.
Proof.
  intros Hs Hne H0 H1. unfold at_rank.
  destruct (rank_floor (length arr) t H0 H1) as (Hlo & Hg0 & Hg1).
  assert (length arr <> 0)%nat by (destruct arr; simpl; congruence).
  apply lerp_between; [|exact Hg0|exact Hg1].
  apply sorted_nth; [exact Hs|lia|lia].
Qed.

Lemma at_rank_monotone (arr : list Q) (t1 t2 : Q) :
  StronglySorted Qle arr -> arr <> [] ->
  (0 <= t1)%Q -> (t1 <= t2)%Q -> (t2 <= inject_Z (Z.of_nat (length arr - 1)))%Q ->
  (at_rank arr t1 <= at_rank arr t2)%Q.
Proof.
  intros Hs Hne H0 H12 H2.
  assert (H1 : (t1 <= inject_Z (Z.of_nat (length arr - 1)))%Q) by lra.
  assert (H0' : (0 <= t2)%Q) by lra.
  assert (Hlen : (length arr <> 0)%nat) by (destruct arr; simpl; congruence).
  destruct (rank_floor (length arr) t1 H0 H1) as (Hlo1 & Hg1 & _).
  destruct (rank_floor (length arr) t2 H0' H2) as (Hlo2 & Hg2 & _).
  assert (Hfl : Qfloor t1 <= Qfloor t2) by (apply Qfloor_resp_le; exact H12).
  destruct (Z.eq_dec (Qfloor t1) (Qfloor t2)) as [E|NE].
  - unfold at_rank. rewrite E. apply lerp_monotone; [|lra].
    apply sorted_nth; [exact Hs|lia|lia].
  - destruct (at_rank_between arr t1 Hs Hne H0 H1) as (_ & Hup).
    destruct (at_rank_between arr t2 Hs Hne H0' H2) as (Hdown & _).
    apply Qle_trans with (nth (Nat.min (Z.to_nat (Qfloor t1) + 1) (length arr - 1)) arr 0%Q);
      [exact Hup|].
    apply Qle_trans with (nth (Z.to_nat (Qfloor t2)) arr 0%Q); [|exact Hdown].
    assert (0 <= Qfloor t1).
    { change 0 with (Qfloor (inject_Z 0)). apply Qfloor_resp_le. exact H0. }
    apply sorted_nth; [exact Hs|lia|lia].
Qed.

Lemma virtual_index_range (n : nat) (q : Q) :
  (0 <= q)%Q -> (q <= 100)%Q ->
  (0 <= virtual_index n q)%Q /\ (virtual_index n q <= inject_Z (Z.of_nat (n - 1)))%Q.
Proof.
  intros H0 H1. unfold virtual_index.
  assert (Hn : (0 <= inject_Z (Z.of_nat (n - 1)))%Q).
  { change 0%Q with (inject_Z 0). rewrite <- Zle_Qle. lia. }
  assert (Hx0 : (0 <= q / 100)%Q)
    by (unfold Qdiv; change (/ 100)%Q with (1 # 100)%Q; lra).
  assert (Hx1 : (q / 100 <= 1)%Q)
    by (unfold Qdiv; change (/ 100)%Q with (1 # 100)%Q; lra).
  revert Hn Hx0 Hx1.
  generalize (q / 100)%Q (inject_Z (Z.of_nat (n - 1))).
  intros x m Hm Hx0 Hx1. split; nra.
Qed.

Lemma virtual_index_monotone (n : nat) (p q : Q) :
  (p <= q)%Q -> (virtual_index n p <= virtual_index n q)%Q.
Proof.
  intros H. unfold virtual_index.
  assert (Hn : (0 <= inject_Z (Z.of_nat (n - 1)))%Q).
  { change 0%Q with (inject_Z 0). rewrite <- Zle_Qle. lia. }
  assert (Hx : (p / 100 <= q / 100)%Q)
    by (unfold Qdiv; change (/ 100)%Q with (1 # 100)%Q; lra).
  revert Hn Hx.
  generalize (p / 100)%Q (q / 100)%Q (inject_Z (Z.of_nat (n - 1))).
  intros x y m Hm Hxy. nra.
Qed.

(** The percentile of a fixed array does not decrease with the rank. *)
Lemma percentile_monotone (a0 : Q) (rest : list Q) (p q : Q) :
  (0 <= p)%Q -> (p <= q)%Q -> (q <= 100)%Q ->
  (at_rank (sort_samples (a0 :: rest)) (virtual_index (length (a0 :: rest)) p)
   <= at_rank (sort_samples (a0 :: rest)) (virtual_index (length (a0 :: rest)) q))%Q.
Proof.
  intros H0 Hpq H1.
  assert (Hne : sort_samples (a0 :: rest) <> []).
  { intros E. apply (f_equal (@length Q)) in E.
    rewrite sort_samples_length in E. discriminate. }
  destruct (virtual_index_range (length (a0 :: rest)) p) as (Hp0 & _); [lra|lra|].
  destruct (virtual_index_range (length (a0 :: rest)) q) as (_ & Hq1); [lra|lra|].
  apply at_rank_monotone.
  - apply sort_samples_sorted.
  - exact Hne.
  - exact Hp0.
  - apply virtual_index_monotone. exact Hpq.
  - rewrite sort_samples_length. exact Hq1.
Qed.

Lemma percentile_block_inv (values : list Q) (reverse : bool) (avg : Q)
      (b : stat_block) :
  percentile_block values reverse avg = Returned b ->
  calculate_percentile values 50 reverse = Returned (p50 b) /\
  calculate_percentile values 95 reverse = Returned (p95 b) /\
  calculate_percentile values 99 reverse = Returned (p99 b).
Proof.
  destruct (percentile_block_total values reverse avg)
    as (x & y & z & Hx & Hy & Hz & E).
  rewrite E. intros H. inversion H; subst. cbn. auto.
Qed.

Lemma block_ascending (values : list Q) (avg : Q) (b : stat_block) :
  percentile_block values false avg = Returned b -> ascending b.
Proof.
  intros H. apply percentile_block_inv in H as (H50 & H95 & H99).
  unfold ascending. destruct values as [|a0 rest].
  - cbn in H50, H95, H99. inversion H50. inversion H95. inversion H99. exact I.
  - rewrite calculate_percentile_value in H50, H95, H99
      by (unfold Qle; simpl; lia).
    inversion H50. inversion H95. inversion H99.
    split; apply percentile_monotone; unfold Qle; simpl; lia.
Qed.

Lemma block_descending (values : list Q) (avg : Q) (b : stat_block) :
  percentile_block values true avg = Returned b -> descending b.
Proof.
  intros H. apply percentile_block_inv in H as (H50 & H95 & H99).
  unfold descending. destruct values as [|a0 rest].
  - cbn in H50, H95, H99. inversion H50. inversion H95. inversion H99. exact I.
  - rewrite calculate_percentile_value in H50, H95, H99
      by (unfold Qle; simpl; lia).
    inversion H50. inversion H95. inversion H99.
    split; apply percentile_monotone; unfold Qle; simpl; lia.
Qed.

(** ** The worker pool *)

(** *** Lists of workers *)

Lemma update_nth_length {A} (w : nat) (x : A) (l : list A) :
  length (update_nth w x l) = length l.
Proof.
  revert w. induction l as [|y l IH]; intros [|w]; simpl; try reflexivity.
  rewrite IH. reflexivity.
Qed.

Lemma update_nth_twice {A} (w : nat) (x y : A) (l : list A) :
  update_nth w y (update_nth w x l) = update_nth w y l.
Proof.
  revert w. induction l as [|z l IH]; intros [|w]; simpl; try reflexivity.
  rewrite IH. reflexivity.
Qed.

Lemma nth_error_update_same {A} (w : nat) (x a : A) (l : list A) :
  nth_error l w = Some a -> nth_error (update_nth w x l) w = Some x.
Proof.
  revert w. induction l as [|z l IH]; intros [|w]; simpl; try discriminate.
  - reflexivity.
  - apply IH.
Qed.

Lemma nth_error_update_other {A} (w w' : nat) (x : A) (l : list A) :
  w' <> w -> nth_error (update_nth w x l) w' = nth_error l w'.
Proof.
  revert w w'. induction l as [|z l IH]; intros [|w] [|w'] H; simpl;
    try reflexivity; try congruence.
  apply IH. congruence.
Qed.

Lemma tally_member (f : wstate -> nat) (ws : list wstate) (w : nat) (a : wstate) :
  nth_error ws w = Some a -> (f a <= tally f ws)%nat.
Proof.
  unfold tally. revert w. induction ws as [|z ws IH]; intros [|w]; simpl;
    try discriminate.
  - intros H. inversion H. lia.
  - intros H. specialize (IH _ H). lia.
Qed.

Lemma tally_update (f : wstate -> nat) (ws : list wstate) (w : nat) (a b : wstate) :
  nth_error ws w = Some a ->
  tally f (update_nth w b ws) = (tally f ws + f b - f a)%nat.
Proof.
  unfold tally. revert w. induction ws as [|z ws IH]; intros [|w]; simpl;
    try discriminate.
  - intros H. inversion H. lia.
  - intros H. rewrite (IH _ H).
    pose proof (tally_member f ws w a H) as Hm. unfold tally in Hm. lia.
Qed.

Lemma tally_all (f : wstate -> nat) (ws : list wstate) :
  (forall st, In st ws -> f st = 1%nat) -> tally f ws = length ws.
Proof.
  unfold tally. induction ws as [|z ws IH]; simpl; intros H; [reflexivity|].
  rewrite IH by (intros st Hst; apply H; right; exact Hst).
  rewrite (H z) by (left; reflexivity). reflexivity.
Qed.

Lemma tally_none (f : wstate -> nat) (ws : list wstate) :
  tally f ws = O -> forall st, In st ws -> f st = O.
Proof.
  unfold tally. induction ws as [|z ws IH]; simpl; intros H st Hin.
  - contradiction.
  - destruct Hin as [E|Hin]; [subst; lia|apply IH; [lia|exact Hin]].
Qed.

(** *** Histories *)

Lemma sentinel_takers_app (s : pool) (d : list (nat * option nat)) :
  map fst (filter (fun d => is_sentinel (snd d)) (delivered s ++ d))
  = sentinel_takers s ++ map fst (filter (fun d => is_sentinel (snd d)) d).
Proof. unfold sentinel_takers. rewrite filter_app, map_app. reflexivity. Qed.

(** After a sentinel the queue holds sentinels only. *)
Lemma sentinels_last (n c : nat) (front rest : list (option nat)) :
  front ++ None :: rest = map Some (seq 0 n) ++ repeat None c ->
  Forall (fun item => item = None) rest.
Proof.
  generalize (seq 0 n). intros tasks. revert front.
  induction tasks as [|t tasks IH]; intros front H; simpl in H.
  - apply Forall_forall. intros x Hx.
    apply (repeat_spec c None). rewrite <- H.
    apply in_or_app. right. right. exact Hx.
  - destruct front as [|f front]; simpl in H; [discriminate|].
    inversion H. eapply IH. eassumption.
Qed.

Lemma no_sentinel_empty (q : list (option nat)) :
  Forall (fun item => item = None) q -> sentinels_in q = O -> q = [].
Proof.
  unfold sentinels_in. destruct q as [|x q]; [reflexivity|].
  intros H. inversion H; subst. simpl. discriminate.
Qed.

Lemma takers_done_update (ws : list wstate) (w : nat) (a b : wstate)
      (takers : list nat) :
  nth_error ws w = Some a -> a <> WDone -> b <> WDone ->
  (forall w', In w' takers <-> nth_error ws w' = Some WDone) ->
  forall w', In w' takers <-> nth_error (update_nth w b ws) w' = Some WDone.
Proof.
  intros Hw Ha Hb Hold w'. destruct (Nat.eq_dec w' w) as [->|Hne].
  - rewrite (nth_error_update_same _ _ _ _ Hw). rewrite Hold, Hw.
    split; intros E; inversion E; congruence.
  - rewrite nth_error_update_other by exact Hne. apply Hold.
Qed.

Lemma takers_done_sentinel (ws : list wstate) (w : nat) (a : wstate)
      (takers : list nat) :
  nth_error ws w = Some a ->
  (forall w', In w' takers <-> nth_error ws w' = Some WDone) ->
  forall w', In w' (takers ++ [w])
             <-> nth_error (update_nth w WDone ws) w' = Some WDone.
Proof.
  intros Hw Hold w'. rewrite in_app_iff. destruct (Nat.eq_dec w' w) as [->|Hne].
  - rewrite (nth_error_update_same _ _ _ _ Hw). split; [reflexivity|].
    intros _. right. left. reflexivity.
  - rewrite nth_error_update_other by exact Hne. rewrite Hold.
    split; [intros [H|[H|[]]]; [exact H|congruence]|intros H; left; exact H].
Qed.

Lemma NoDup_snoc {A} (l : list A) (x : A) :
  NoDup l -> ~ In x l -> NoDup (l ++ [x]).
Proof.
  induction 1 as [|y l Hy Hl IH]; simpl; intros Hx.
  - constructor; [intros []|constructor].
  - constructor.
    + rewrite in_app_iff. intros [H|[H|[]]]; [contradiction|].
      apply Hx. left. symmetry. exact H.
    + apply IH. intros H. apply Hx. right. exact H.
Qed.

Ltac pool_fields :=
  unfold sentinel_takers, tasks_delivered, sentinels_in in *;
  cbn [workers queue semaphore unfinished_tasks results delivered outside
       set_worker acquire release pool_log set_outside append_result pop leave]
    in *.

Ltac tally_facts H :=
  rewrite ?(tally_update _ _ _ _ _ H);
  pose proof (tally_member holding _ _ _ H);
  pose proof (tally_member in_request _ _ _ H);
  pose proof (tally_member crashed _ _ _ H);
  pose proof (tally_member done _ _ _ H);
  pose proof (tally_member weight _ _ _ H);
  cbn [holding in_request crashed done weight] in *.

Section Preservation.

Variables (n c : nat) (cfg : config).

(** The worker takes a permit. *)
Lemma inv_acquire (s : pool) (w k : nat) :
  pool_inv n c s -> nth_error (workers s) w = Some WLoop -> semaphore s = S k ->
  pool_inv n c (set_worker w WGet (acquire s)).
Proof.
  intros [I1 I2 I3 I4 I5 I6 I7] Hw Hk.
  constructor; pool_fields.
  - rewrite update_nth_length. exact I1.
  - tally_facts Hw. lia.
  - tally_facts Hw. lia.
  - exact I4.
  - tally_facts Hw. lia.
  - exact I6.
  - eapply takers_done_update; eauto; discriminate.
Qed.

(** The worker receives a task index. *)
Lemma inv_got_task (s : pool) (w i : nat) (rest : list (option nat)) :
  pool_inv n c s -> nth_error (workers s) w = Some WGet ->
  queue s = Some i :: rest ->
  pool_inv n c (got w (Some i) (pop w (Some i) rest s)).
Proof.
  intros [I1 I2 I3 I4 I5 I6 I7] Hw Hq. unfold got.
  rewrite Hq in *. unfold sentinels_in in *. simpl in I3, I5.
  constructor; pool_fields.
  - rewrite update_nth_length. exact I1.
  - tally_facts Hw. lia.
  - tally_facts Hw. lia.
  - rewrite map_app, <- app_assoc. exact I4.
  - tally_facts Hw. lia.
  - rewrite filter_app, map_app. simpl. rewrite app_nil_r. exact I6.
  - rewrite filter_app, map_app. simpl. rewrite app_nil_r.
    eapply takers_done_update; eauto; discriminate.
Qed.

(** The worker receives a sentinel. *)
Lemma inv_got_sentinel (s : pool) (w : nat) (rest : list (option nat)) :
  pool_inv n c s -> nth_error (workers s) w = Some WGet ->
  queue s = None :: rest ->
  pool_inv n c (got w None (pop w None rest s))
  /\ nth_error (workers (got w None (pop w None rest s))) w = Some WDone.
Proof.
  intros [I1 I2 I3 I4 I5 I6 I7] Hw Hq. unfold got, task_done.
  rewrite Hq in *. unfold sentinels_in in *. simpl in I3, I5.
  pool_fields.
  destruct (unfinished_tasks s) as [|u] eqn:Hu; [lia|].
  split; [|pool_fields; eapply nth_error_update_same; eauto].
  constructor; pool_fields.
  - rewrite update_nth_length. exact I1.
  - tally_facts Hw. lia.
  - tally_facts Hw. lia.
  - rewrite map_app, <- app_assoc. exact I4.
  - tally_facts Hw. lia.
  - rewrite filter_app, map_app. simpl.
    apply NoDup_snoc; [exact I6|]. rewrite I7, Hw. discriminate.
  - rewrite filter_app, map_app. simpl.
    eapply takers_done_sentinel; eauto.
Qed.

(** The request of the worker comes back. *)
Lemma inv_reply (s : pool) (w i : nat) (env : request_env) :
  pool_inv n c s -> nth_error (workers s) w = Some (WReq i) ->
  pool_inv n c (after_request cfg w i env s).
Proof.
  intros [I1 I2 I3 I4 I5 I6 I7] Hw. unfold after_request.
  destruct (make_request env (model cfg) (max_completion_tokens cfg)
                         (request_timeout cfg) (outside s)) as [[res|e] o].
  - assert (Hu : task_done (match res with
                            | Some r => append_result r (set_outside o s)
                            | None => pool_log (LogFailed i) (set_outside o s)
                            end)
                 = match unfinished_tasks s with
                   | O => Raised ValueError
                   | S u => Returned
                       {| queue := queue s; unfinished_tasks := u;
                          semaphore := semaphore s; workers := workers s;
                          results := match res with
                                     | Some r => results s ++ [r]
                                     | None => results s
                                     end;
                          delivered := delivered s;
                          outside := match res with
                                     | Some _ => o
                                     | None => {| log := log o ++ [LogFailed i];
                                                  issued := issued o |}
                                     end |}
                   end).
    { unfold task_done. destruct res; pool_fields; destruct (unfinished_tasks s); reflexivity. }
    rewrite Hu. clear Hu.
    destruct (unfinished_tasks s) as [|u] eqn:Eu.
    + constructor; destruct res; pool_fields;
        try (rewrite update_nth_length); try assumption;
        try (tally_facts Hw; lia);
        try (eapply takers_done_update; eauto; discriminate).
    + constructor; pool_fields;
        try (rewrite update_nth_length); try assumption;
        try (tally_facts Hw; lia);
        try (eapply takers_done_update; eauto; discriminate).
  - constructor; pool_fields;
      try (rewrite update_nth_length); try assumption;
      try (tally_facts Hw; lia);
      try (eapply takers_done_update; eauto; discriminate).
Qed.

End Preservation.

(** Taking the permit first and the item next is one step. *)
Lemma got_after_acquire (w : nat) (item : option nat) (rest : list (option nat))
      (st : wstate) (s : pool) :
  got w item (pop w item rest (set_worker w st s))
  = got w item (pop w item rest s).
Proof.
  destruct item as [i|]; unfold got, task_done, leave, set_worker, release,
    pool_log, pop; cbn.
  - rewrite update_nth_twice. reflexivity.
  - destruct (unfinished_tasks s); cbn; rewrite update_nth_twice; reflexivity.
Qed.

(** What a step is, by the place of the worker. *)
Lemma step_cases (cfg : config) (s s' : pool) (a : action) :
  step cfg s a = Some s' ->
  (exists w k, a = Next w /\ nth_error (workers s) w = Some WLoop
               /\ semaphore s = S k /\ queue s = []
               /\ s' = set_worker w WGet (acquire s))
  \/ (exists w k item rest,
         a = Next w /\ nth_error (workers s) w = Some WLoop
         /\ semaphore s = S k /\ queue s = item :: rest
         /\ s' = got w item (pop w item rest (set_worker w WGet (acquire s))))
  \/ (exists w item rest,
         a = Next w /\ nth_error (workers s) w = Some WGet
         /\ queue s = item :: rest
         /\ s' = got w item (pop w item rest s))
  \/ (exists w i env,
         a = Reply w env /\ nth_error (workers s) w = Some (WReq i)
         /\ s' = after_request cfg w i env s).
Proof.
  destruct a as [w|w env]; simpl.
  - destruct (nth_error (workers s) w) as [[| |i| |e]|] eqn:Hw; try discriminate.
    + destruct (semaphore s) as [|k] eqn:Hk; [discriminate|].
      cbn [queue acquire]. destruct (queue s) as [|item rest] eqn:Hq;
        intros H; inversion H; subst.
      * left. exists w, k. auto.
      * right; left. exists w, k, item, rest.
        rewrite got_after_acquire. auto 6.
    + destruct (queue s) as [|item rest] eqn:Hq; [discriminate|].
      intros H; inversion H; subst.
      right; right; left. exists w, item, rest. auto.
  - destruct (nth_error (workers s) w) as [[| |i| |e]|] eqn:Hw; try discriminate.
    intros H; inversion H; subst.
    right; right; right. exists w, i, env. auto.
Qed.

Lemma step_inv (n c : nat) (cfg : config) (s s' : pool) (a : action) :
  pool_inv n c s -> step cfg s a = Some s' -> pool_inv n c s'.
Proof.
  intros I H.
  destruct (step_cases cfg s s' a H)
    as [(w & k & _ & Hw & Hk & Hq & ->)
       |[(w & k & item & rest & _ & Hw & Hk & Hq & ->)
        |[(w & item & rest & _ & Hw & Hq & ->)
         |(w & i & env & _ & Hw & ->)]]].
  - eapply inv_acquire; eauto.
  - pose proof (inv_acquire n c s w k I Hw Hk) as I'.
    assert (Hw' : nth_error (workers (set_worker w WGet (acquire s))) w = Some WGet)
      by (cbn; eapply nth_error_update_same; eauto).
    assert (Hq' : queue (set_worker w WGet (acquire s)) = item :: rest)
      by (cbn; exact Hq).
    destruct item as [i|].
    + eapply inv_got_task; eauto.
    + eapply inv_got_sentinel; eauto.
  - destruct item as [i|].
    + eapply inv_got_task; eauto.
    + eapply inv_got_sentinel; eauto.
  - eapply inv_reply; eauto.
Qed.

Lemma run_inv (n c : nat) (cfg : config) (sched : list action) (s s' : pool) :
  pool_inv n c s -> run cfg s sched = Some s' -> pool_inv n c s'.
Proof.
  revert s. induction sched as [|a sched IH]; intros s I; simpl.
  - intros H. inversion H; subst. exact I.
  - destruct (step cfg s a) as [s1|] eqn:Hs; [|discriminate].
    apply IH. eapply step_inv; eauto.
Qed.

Lemma run_app (cfg : config) (sched1 sched2 : list action) (s : pool) :
  run cfg s (sched1 ++ sched2)
  = match run cfg s sched1 with
    | Some s1 => run cfg s1 sched2
    | None => None
    end.
Proof.
  revert s. induction sched1 as [|a sched1 IH]; intros s; simpl; [reflexivity|].
  destruct (step cfg s a); [apply IH|reflexivity].
Qed.

(** *** The pool [main] starts *)

Lemma range_length (z : Z) : length (range z) = Z.to_nat z.
Proof. unfold range. apply length_seq. Qed.

Lemma map_const_repeat {A B} (x : B) (l : list A) :
  map (fun _ => x) l = repeat x (length l).
Proof. induction l; simpl; [reflexivity|]. rewrite IHl. reflexivity. Qed.

Lemma sentinels_in_initial (n c : nat) :
  sentinels_in (map Some (seq 0 n) ++ repeat None c) = c.
Proof.
  unfold sentinels_in. rewrite filter_app, length_app.
  generalize (seq 0 n). intros l.
  assert (H1 : filter is_sentinel (map Some l) = []).
  { induction l; simpl; [reflexivity|assumption]. }
  assert (H2 : filter is_sentinel (repeat None c) = repeat None c).
  { induction c; simpl; [reflexivity|]. rewrite IHc. reflexivity. }
  rewrite H1, H2, repeat_length. reflexivity.
Qed.

Lemma tally_repeat (f : wstate -> nat) (st : wstate) (c : nat) :
  tally f (repeat st c) = (c * f st)%nat.
Proof.
  unfold tally. induction c; simpl; [reflexivity|]. rewrite IHc. reflexivity.
Qed.

Lemma start_pool_spec (cfg : config) (w : world) :
  (concurrency cfg < 0 -> start_pool cfg w = (Raised ValueError, w))
  /\ (0 <= concurrency cfg ->
      exists s0,
        start_pool cfg w = (Returned s0, w) /\
        queue s0 = map Some (seq 0 (Z.to_nat (num_requests cfg)))
                   ++ repeat None (Z.to_nat (concurrency cfg)) /\
        workers s0 = repeat WLoop (Z.to_nat (concurrency cfg)) /\
        results s0 = [] /\ delivered s0 = [] /\ outside s0 = w /\
        pool_inv (Z.to_nat (num_requests cfg)) (Z.to_nat (concurrency cfg)) s0).
Proof.
  unfold start_pool, Semaphore. split; intros Hc.
  - apply Z.ltb_lt in Hc. rewrite Hc. reflexivity.
  - assert (E : (concurrency cfg <? 0) = false) by (apply Z.ltb_ge; exact Hc).
    rewrite E. rewrite !map_const_repeat, !range_length.
    eexists. split; [reflexivity|]. cbn.
    repeat (split; [reflexivity|]).
    constructor; unfold sentinel_takers;
      cbn [workers queue semaphore unfinished_tasks results delivered outside
           filter map]; unfold range.
    + apply repeat_length.
    + rewrite tally_repeat. cbn. lia.
    + rewrite !tally_repeat. cbn. lia.
    + reflexivity.
    + rewrite sentinels_in_initial, tally_repeat. cbn. lia.
    + constructor.
    + intros w0. split; [intros []|]. intros H. exfalso.
      apply nth_error_In in H. apply repeat_spec in H. discriminate.
Qed.

(** *** What a step changes *)

Lemma failed_logged_app (l1 l2 : list log_record) :
  failed_logged (l1 ++ l2) = (failed_logged l1 + failed_logged l2)%nat.
Proof.
  induction l1 as [|r l1 IH]; simpl; [reflexivity|].
  destruct r; simpl; rewrite IH; reflexivity.
Qed.

(** The executor writes no "Request .. failed" record itself. *)
Lemma make_request_failed_logged env m mx rt w :
  failed_logged (log (snd (make_request env m mx rt w))) = failed_logged (log w).
Proof.
  destruct (request_cases env) as [(s & t & n & Hc & Hs & _)|[(s & Hc & Hs & _)|(e & He)]].
  - destruct (make_request_success env m mx rt w s t n Hc Hs) as (w' & Hl & ->).
    simpl. rewrite Hl. reflexivity.
  - destruct (make_request_deadline env m mx rt w s Hc Hs) as (w' & Hl & ->).
    simpl. rewrite Hl, failed_logged_app. simpl. lia.
  - destruct (make_request_exception env m mx rt w e He) as (w' & -> & Hl).
    simpl. rewrite Hl.
    destruct (is_TimeoutError e), (is_Exception e);
      rewrite ?failed_logged_app; simpl; lia.
Qed.

Lemma request_result_at (cfg : config) (env : request_env) (w : world) :
  fst (make_request env (model cfg) (max_completion_tokens cfg)
                    (request_timeout cfg) w)
  = request_result cfg env.
Proof. unfold request_result. apply make_request_result_world. Qed.

Lemma request_result_benign (cfg : config) (env : request_env) :
  benign env = true -> exists r, request_result cfg env = Returned r.
Proof.
  intros Hb. unfold request_result.
  destruct (make_request_benign env (model cfg) (max_completion_tokens cfg)
                                (request_timeout cfg) empty_world Hb)
    as (r & w' & ->).
  exists r. reflexivity.
Qed.

Lemma not_None_app {A} (l1 l2 : list (option A)) :
  not_None (l1 ++ l2) = not_None l1 ++ not_None l2.
Proof.
  induction l1 as [|[x|] l1 IH]; simpl; [reflexivity| |exact IH].
  rewrite IH. reflexivity.
Qed.

Section Effects.

Variables (n c : nat) (cfg : config).

Lemma acquire_effect (s : pool) (w k : nat) :
  nth_error (workers s) w = Some WLoop -> semaphore s = S k ->
  let s' := set_worker w WGet (acquire s) in
  (measure s' < measure s)%nat /\
  results s' = results s /\ outside s' = outside s /\
  tasks_delivered s' = tasks_delivered s /\
  tally in_request (workers s') = tally in_request (workers s) /\
  tally crashed (workers s') = tally crashed (workers s).
Proof.
  intros Hw Hk. unfold measure. pool_fields.
  repeat split; try reflexivity; tally_facts Hw; lia.
Qed.

Lemma get_task_effect (s : pool) (w i : nat) (rest : list (option nat)) :
  nth_error (workers s) w = Some WGet -> queue s = Some i :: rest ->
  let s' := got w (Some i) (pop w (Some i) rest s) in
  (measure s' < measure s)%nat /\
  results s' = results s /\
  log (outside s') = log (outside s) ++ [LogStarting i] /\
  tasks_delivered s' = tasks_delivered s ++ [i] /\
  tally in_request (workers s') = S (tally in_request (workers s)) /\
  tally crashed (workers s') = tally crashed (workers s).
Proof.
  intros Hw Hq. unfold measure, got. pool_fields. rewrite Hq.
  cbn [log length].
  repeat split; try reflexivity; try (tally_facts Hw; lia).
  rewrite map_app, not_None_app. reflexivity.
Qed.

Lemma get_sentinel_effect (s : pool) (w : nat) (rest : list (option nat)) :
  pool_inv n c s ->
  nth_error (workers s) w = Some WGet -> queue s = None :: rest ->
  let s' := got w None (pop w None rest s) in
  (measure s' < measure s)%nat /\
  results s' = results s /\ outside s' = outside s /\
  tasks_delivered s' = tasks_delivered s /\
  tally in_request (workers s') = tally in_request (workers s) /\
  tally crashed (workers s') = tally crashed (workers s).
Proof.
  intros [_ _ I3 _ _ _ _] Hw Hq. unfold measure, got, task_done. pool_fields.
  rewrite Hq in *. cbn [length] in *.
  destruct (unfinished_tasks s) as [|u]; [lia|]. pool_fields.
  repeat split; try reflexivity; try (tally_facts Hw; lia).
  rewrite map_app, not_None_app. cbn. apply app_nil_r.
Qed.

Lemma reply_effect (s : pool) (w i : nat) (env : request_env) :
  pool_inv n c s ->
  nth_error (workers s) w = Some (WReq i) ->
  let s' := after_request cfg w i env s in
  (measure s' < measure s)%nat /\
  tasks_delivered s' = tasks_delivered s /\
  S (tally in_request (workers s')) = tally in_request (workers s) /\
  match request_result cfg env with
  | Returned (Some r) =>
      results s' = results s ++ [r] /\ well_formed r /\
      failed_logged (log (outside s')) = failed_logged (log (outside s)) /\
      tally crashed (workers s') = tally crashed (workers s)
  | Returned None =>
      results s' = results s /\
      failed_logged (log (outside s')) = S (failed_logged (log (outside s))) /\
      tally crashed (workers s') = tally crashed (workers s)
  | Raised e =>
      results s' = results s /\
      failed_logged (log (outside s')) = failed_logged (log (outside s)) /\
      tally crashed (workers s') = S (tally crashed (workers s))
  end.
Proof.
  intros [_ _ I3 _ _ _ _] Hw. unfold measure, after_request.
  rewrite <- (request_result_at cfg env (outside s)).
  pose proof (make_request_failed_logged env (model cfg) (max_completion_tokens cfg)
                                         (request_timeout cfg) (outside s)) as Hlog.
  pose proof (make_request_well_formed env (model cfg) (max_completion_tokens cfg)
                                       (request_timeout cfg) (outside s)) as Hwf.
  destruct (make_request env (model cfg) (max_completion_tokens cfg)
                         (request_timeout cfg) (outside s)) as [[res|e] o].
  - cbn [fst snd] in *. unfold task_done.
    assert (Hpos : (1 <= unfinished_tasks s)%nat).
    { pose proof (tally_member in_request _ _ _ Hw) as Hm. cbn in Hm. lia. }
    destruct res as [r|]; pool_fields;
      (destruct (unfinished_tasks s) as [|u]; [lia|]); pool_fields; cbn [log];
      rewrite ?failed_logged_app; cbn [failed_logged];
      repeat split; try reflexivity; try (tally_facts Hw; lia).
    eapply Hwf. reflexivity.
  - cbn [fst snd] in *. pool_fields.
    repeat split; try reflexivity; try (tally_facts Hw; lia).
Qed.

End Effects.

Lemma later_refl (cfg : config) (s : pool) : later cfg [] s s.
Proof.
  constructor; simpl; try lia; try tauto.
  - rewrite app_nil_r. reflexivity.
Qed.

Lemma populated_app (cfg : config) (l1 l2 : list action) :
  populated cfg (l1 ++ l2) = populated cfg l1 ++ populated cfg l2.
Proof.
  induction l1 as [|[w|w env] l1 IH]; simpl; try assumption; [reflexivity|].
  destruct (request_result cfg env) as [[r|]|e]; simpl; rewrite IH; reflexivity.
Qed.

Lemma failures_app (cfg : config) (l1 l2 : list action) :
  failures cfg (l1 ++ l2) = (failures cfg l1 + failures cfg l2)%nat.
Proof.
  induction l1 as [|[w|w env] l1 IH]; simpl; try assumption; [reflexivity|].
  destruct (request_result cfg env) as [[r|]|e]; simpl; rewrite IH; reflexivity.
Qed.

Lemma later_trans (cfg : config) (l1 l2 : list action) (s1 s2 s3 : pool) :
  later cfg l1 s1 s2 -> later cfg l2 s2 s3 -> later cfg (l1 ++ l2) s1 s3.
Proof.
  intros [A1 A2 A3 A4 A5 A6 A7] [B1 B2 B3 B4 B5 B6 B7].
  constructor.
  - rewrite length_app. lia.
  - rewrite B2, A2, populated_app, app_assoc. reflexivity.
  - rewrite B3, A3, failures_app. lia.
  - lia.
  - lia.
  - rewrite forallb_app. intros H. apply andb_true_iff in H as [H1 H2].
    rewrite (B6 H2). apply A6. exact H1.
  - intros H. apply B7, A7. exact H.
Qed.

Lemma step_later (n c : nat) (cfg : config) (s s' : pool) (a : action) :
  pool_inv n c s -> step cfg s a = Some s' -> later cfg [a] s s'.
Proof.
  intros I H.
  destruct (step_cases cfg s s' a H)
    as [(w & k & -> & Hw & Hk & Hq & ->)
       |[(w & k & item & rest & -> & Hw & Hk & Hq & ->)
        |[(w & item & rest & -> & Hw & Hq & ->)
         |(w & i & env & -> & Hw & ->)]]].
  - destruct (acquire_effect s w k Hw Hk) as (E1 & E2 & E3 & E4 & E5 & E6).
    constructor; unfold accounted; cbn [populated failures length forallb];
      rewrite ?E2, ?E3, ?E4, ?E5, ?E6, ?app_nil_r; try lia; tauto.
  - pose proof (inv_acquire n c s w k I Hw Hk) as I'.
    destruct (acquire_effect s w k Hw Hk) as (E1 & E2 & E3 & E4 & E5 & E6).
    set (s1 := set_worker w WGet (acquire s)) in *.
    assert (Hw' : nth_error (workers s1) w = Some WGet)
      by (cbn; eapply nth_error_update_same; eauto).
    assert (Hq' : queue s1 = item :: rest) by (cbn; exact Hq).
    destruct item as [i|].
    + destruct (get_task_effect s1 w i rest Hw' Hq') as (F1 & F2 & F3 & F4 & F5 & F6).
      constructor; unfold accounted; cbn [populated failures length forallb];
        rewrite ?F2, ?F3, ?F4, ?F5, ?F6, ?E2, ?E3, ?E4, ?E5, ?E6, ?app_nil_r,
          ?failed_logged_app, ?length_app; cbn [failed_logged length];
        try lia; tauto.
    + destruct (get_sentinel_effect n c s1 w rest I' Hw' Hq')
        as (F1 & F2 & F3 & F4 & F5 & F6).
      constructor; unfold accounted; cbn [populated failures length forallb];
        rewrite ?F2, ?F3, ?F4, ?F5, ?F6, ?E2, ?E3, ?E4, ?E5, ?E6, ?app_nil_r;
        try lia; tauto.
  - destruct item as [i|].
    + destruct (get_task_effect s w i rest Hw Hq) as (F1 & F2 & F3 & F4 & F5 & F6).
      constructor; unfold accounted; cbn [populated failures length forallb];
        rewrite ?F2, ?F3, ?F4, ?F5, ?F6, ?app_nil_r,
          ?failed_logged_app, ?length_app; cbn [failed_logged length];
        try lia; tauto.
    + destruct (get_sentinel_effect n c s w rest I Hw Hq)
        as (F1 & F2 & F3 & F4 & F5 & F6).
      constructor; unfold accounted; cbn [populated failures length forallb];
        rewrite ?F2, ?F3, ?F4, ?F5, ?F6, ?app_nil_r; try lia; tauto.
  - destruct (reply_effect n c cfg s w i env I Hw) as (F1 & F2 & F3 & F4).
    assert (Hb : benign env = true -> exists r, request_result cfg env = Returned r)
      by apply request_result_benign.
    destruct (request_result cfg env) as [[r|]|e] eqn:Er.
    + destruct F4 as (G1 & G2 & G3 & G4).
      constructor; unfold accounted; cbn [populated failures length forallb];
        rewrite ?Er, ?F2, ?G1, ?G3, ?G4, ?length_app; cbn [length];
        try lia; try tauto.
      intros Hall. apply Forall_app. split; [exact Hall|].
      constructor; [exact G2|constructor].
    + destruct F4 as (G1 & G3 & G4).
      constructor; unfold accounted; cbn [populated failures length forallb];
        rewrite ?Er, ?F2, ?G1, ?G3, ?G4, ?app_nil_r; try lia; tauto.
    + destruct F4 as (G1 & G3 & G4).
      constructor; unfold accounted;
        cbn [populated failures length forallb benign_action];
        rewrite ?Er, ?F2, ?G1, ?G3, ?G4, ?app_nil_r; try lia; try tauto.
      rewrite andb_true_r. intros Hben. destruct (Hb Hben) as (r & Hr).
      discriminate.
Qed.

Lemma run_later (n c : nat) (cfg : config) (sched : list action) (s s' : pool) :
  pool_inv n c s -> run cfg s sched = Some s' -> later cfg sched s s'.
Proof.
  revert s. induction sched as [|a sched IH]; intros s I; simpl.
  - intros H. inversion H; subst. apply later_refl.
  - destruct (step cfg s a) as [s1|] eqn:Hs; [|discriminate].
    intros H. change (a :: sched) with ([a] ++ sched).
    eapply later_trans.
    + eapply step_later; eauto.
    + apply IH; [eapply step_inv; eauto|exact H].
Qed.

(** *** A drained pool *)

Lemma forallb_false_nth {A} (f : A -> bool) (l : list A) :
  forallb f l = false -> exists w x, nth_error l w = Some x /\ f x = false.
Proof.
  induction l as [|y l IH]; simpl; [discriminate|].
  destruct (f y) eqn:E; simpl.
  - intros H. destruct (IH H) as (w & x & Hw & Hx). exists (S w), x. auto.
  - intros _. exists O, y. auto.
Qed.

Lemma tally_bound (f : wstate -> nat) (ws : list wstate) (w : nat) (a : wstate) :
  (forall st, f st <= 1)%nat -> nth_error ws w = Some a ->
  (tally f ws + 1 <= length ws + f a)%nat.
Proof.
  intros Hf. unfold tally. revert w.
  induction ws as [|z ws IH]; intros [|w]; simpl; try discriminate.
  - intros H. inversion H; subst.
    assert (list_sum (map f ws) <= length ws)%nat.
    { clear - Hf. induction ws as [|y ws IH]; simpl; [lia|]. specialize (Hf y). lia. }
    lia.
  - intros H. specialize (IH _ H). specialize (Hf z). lia.
Qed.

Lemma all_done (ws : list wstate) :
  forallb ended ws = true -> tally crashed ws = O ->
  forall st, In st ws -> st = WDone.
Proof.
  intros He Hc st Hin.
  pose proof (tally_none crashed ws Hc st Hin) as H0.
  rewrite forallb_forall in He. specialize (He st Hin).
  destruct st; simpl in *; try discriminate; reflexivity.
Qed.

Lemma filter_sentinel_snd (d : list (nat * option nat)) :
  length (filter (fun x => is_sentinel (snd x)) d)
  = length (filter is_sentinel (map snd d)).
Proof.
  induction d as [|[w item] d IH]; simpl; [reflexivity|].
  destruct (is_sentinel item); simpl; rewrite IH; reflexivity.
Qed.

Lemma not_None_initial (n c : nat) :
  not_None (map Some (seq 0 n) ++ repeat (@None nat) c) = seq 0 n.
Proof.
  rewrite not_None_app.
  assert (H1 : forall l : list nat, not_None (map Some l) = l).
  { induction l; simpl; [reflexivity|]. rewrite IHl. reflexivity. }
  assert (H2 : not_None (repeat (@None nat) c) = []).
  { induction c; simpl; [reflexivity|assumption]. }
  rewrite H1, H2. apply app_nil_r.
Qed.

(** When [queue.join()] and [gather] have returned, everything was handed
    out and every worker left through [break]. *)
Lemma drained_pool (n c : nat) (s : pool) :
  pool_inv n c s -> drained s = true ->
  queue s = [] /\
  map snd (delivered s) = map Some (seq 0 n) ++ repeat None c /\
  tasks_delivered s = seq 0 n /\
  length (sentinel_takers s) = c /\
  tally in_request (workers s) = O /\
  tally crashed (workers s) = O /\
  first_exception (workers s) = None.
Proof.
  intros [I1 I2 I3 I4 I5 I6 I7] Hd. unfold drained in Hd.
  apply andb_true_iff in Hd as [Hu He]. apply Nat.eqb_eq in Hu.
  assert (Hq : queue s = []) by (destruct (queue s); [reflexivity|simpl in I3; lia]).
  rewrite Hq, app_nil_r in I4.
  assert (Hc : tally crashed (workers s) = O) by lia.
  repeat split.
  - exact Hq.
  - exact I4.
  - unfold tasks_delivered. rewrite I4. apply not_None_initial.
  - unfold sentinel_takers. rewrite length_map, filter_sentinel_snd, I4.
    apply sentinels_in_initial.
  - lia.
  - exact Hc.
  - pose proof (all_done _ He Hc) as Hall. clear - Hall.
    induction (workers s) as [|st ws IH]; simpl; [reflexivity|].
    rewrite (Hall st) by (left; reflexivity).
    apply IH. intros st' Hin. apply Hall. right. exact Hin.
Qed.

(** *** Progress *)

(** A worker that has not ended can always move: there is a free permit for
    it, and the queue still holds its sentinel. *)
Lemma live_worker_moves (n c : nat) (cfg : config) (s : pool) (w : nat)
      (st : wstate) :
  pool_inv n c s -> nth_error (workers s) w = Some st -> ended st = false ->
  (exists s', step cfg s (Next w) = Some s')
  \/ (forall env, exists s', step cfg s (Reply w env) = Some s').
Proof.
  intros [I1 I2 I3 I4 I5 I6 I7] Hw He.
  destruct st as [| |i| |e]; try discriminate.
  - left. simpl. rewrite Hw.
    assert (Hh : (tally holding (workers s) + 1 <= length (workers s) + holding WLoop)%nat).
    { apply tally_bound with (w := w); [intros []; simpl; lia|exact Hw]. }
    simpl in Hh.
    destruct (semaphore s) as [|k]; [lia|].
    cbn [queue acquire]. destruct (queue s); eexists; reflexivity.
  - left. simpl. rewrite Hw.
    assert (Hh : (tally done (workers s) + 1 <= length (workers s) + done WGet)%nat).
    { apply tally_bound with (w := w); [intros []; simpl; lia|exact Hw]. }
    simpl in Hh. unfold sentinels_in in I5.
    destruct (queue s) as [|item rest]; [simpl in I5; lia|].
    eexists. reflexivity.
  - right. intros env. simpl. rewrite Hw. eexists. reflexivity.
Qed.

(** With a worker in the pool and none crashed, the pool is drained or some
    worker can move. *)
Lemma pool_progress (n c : nat) (cfg : config) (s : pool) :
  pool_inv n c s -> (1 <= c)%nat -> tally crashed (workers s) = O ->
  drained s = false ->
  exists w,
    (exists s', step cfg s (Next w) = Some s')
    \/ (forall env, exists s', step cfg s (Reply w env) = Some s').
Proof.
  intros I Hc Hcr Hd.
  destruct (forallb ended (workers s)) eqn:He.
  - exfalso. pose proof (all_done _ He Hcr) as Hall.
    destruct I as [I1 I2 I3 I4 I5 I6 I7].
    assert (Hdone : tally done (workers s) = length (workers s)).
    { apply tally_all. intros st Hin. rewrite (Hall st Hin). reflexivity. }
    assert (Hreq : tally in_request (workers s) = O).
    { clear - Hall. unfold tally.
      induction (workers s) as [|st ws IH]; simpl; [reflexivity|].
      rewrite (Hall st) by (left; reflexivity). simpl.
      apply IH. intros st' Hin. apply Hall. right. exact Hin. }
    assert (H0 : nth_error (workers s) 0 = Some WDone).
    { destruct (nth_error (workers s) 0) as [st0|] eqn:E0.
      - rewrite (Hall st0); [reflexivity|]. eapply nth_error_In. exact E0.
      - apply nth_error_None in E0. lia. }
    apply I7 in H0. unfold sentinel_takers in H0.
    apply in_map_iff in H0 as ([w0 item] & _ & Hin).
    apply filter_In in Hin as [Hin Hs]. simpl in Hs.
    destruct item; [discriminate|].
    apply in_split in Hin as (d1 & d2 & Hsplit).
    rewrite Hsplit, map_app in I4. simpl in I4. rewrite <- app_assoc in I4.
    simpl in I4. apply sentinels_last in I4.
    apply Forall_app in I4 as [_ Hq].
    apply no_sentinel_empty in Hq; [|lia].
    unfold drained in Hd. rewrite He, andb_true_r in Hd.
    apply Nat.eqb_neq in Hd. rewrite Hq in I3. simpl in I3. lia.
  - destruct (forallb_false_nth _ _ He) as (w & st & Hw & Hst).
    exists w. eapply live_worker_moves; eauto.
Qed.

(** Ended workers do not move. *)
Lemma ended_worker_stays (cfg : config) (s : pool) (w : nat) (st : wstate) :
  nth_error (workers s) w = Some st -> ended st = true ->
  step cfg s (Next w) = None /\ forall env, step cfg s (Reply w env) = None.
Proof.
  intros Hw He. simpl. rewrite Hw.
  destruct st; try discriminate; split; reflexivity.
Qed.

(** ** The orchestrator *)

(** Every call of the executor sends one request, with the given cap. *)
Lemma make_request_issued env m mx rt w :
  exists c,
    In c SAMPLE_PROMPTS /\
    issued (snd (make_request env m mx rt w))
    = issued w ++ [{| req_model := m; req_content := c;
                      req_max_completion_tokens := mx |}].
Proof.
  destruct (random_choice_prompts (draw env)) as [c Hr].
  exists c. split.
  - unfold random_choice in Hr.
    destruct (nth_error SAMPLE_PROMPTS (draw env mod length SAMPLE_PROMPTS))
      as [c'|] eqn:E; [|discriminate].
    inversion Hr; subst. eapply nth_error_In. exact E.
  - cbv [make_request bind lift try_except client_create]. rewrite Hr.
    destruct (created env) as [e|s].
    + destruct e; reflexivity.
    + destruct (process_stream s) as [t n|e|]; cbv [wait_for ret raise].
      * rewrite tokens_per_second_of_total. reflexivity.
      * destruct e; reflexivity.
      * reflexivity.
Qed.

Lemma preflight_check_unfold (pre : request_env) (m : string) (w : world) :
  preflight_check pre m w
  = (match fst (make_request pre m 16 5 w) with
     | Returned (Some _) => Returned true
     | Returned None => Returned false
     | Raised e => Raised e
     end, snd (make_request pre m 16 5 w)).
Proof.
  unfold preflight_check, bind, ret.
  destruct (make_request pre m 16 5 w) as [[[r|]|e] w']; reflexivity.
Qed.

(** [main], by the outcome of the preflight check. *)
Lemma main_unfold (cfg : config) (pre : request_env) (sched : list action)
      (t0 t1 : Q) (w : world) :
  main cfg pre sched t0 t1 w
  = let wp := snd (preflight_check pre (model cfg) w) in
    match fst (preflight_check pre (model cfg) w) with
    | Raised e => (Raised e, wp)
    | Returned false =>
        (Returned GaveNone,
         {| log := log wp ++ [LogPreflightFailed]; issued := issued wp |})
    | Returned true =>
        match start_pool cfg wp with
        | (Raised e, w1) => (Raised e, w1)
        | (Returned s0, w1) =>
            match run cfg s0 sched with
            | None => (Returned NotAnExecution, w1)
            | Some s =>
                if drained s then
                  match first_exception (workers s) with
                  | Some e => (Raised e, outside s)
                  | None =>
                      match make_report cfg (results s) t0 t1 with
                      | Returned r => (Returned (GaveReport r), outside s)
                      | Raised e => (Raised e, outside s)
                      end
                  end
                else (Returned (Waiting s), outside s)
            end
        end
    end.
Proof.
  unfold main, bind.
  destruct (preflight_check pre (model cfg) w) as [[[|]|e] wp]; cbn [fst snd negb].
  - destruct (start_pool cfg wp) as [[s0|e] w1]; [|reflexivity].
    destruct (run cfg s0 sched); reflexivity.
  - reflexivity.
  - reflexivity.
Qed.

Lemma start_pool_returned (cfg : config) (w w' : world) (s0 : pool) :
  start_pool cfg w = (Returned s0, w') ->
  w' = w /\
  queue s0 = map Some (seq 0 (Z.to_nat (num_requests cfg)))
             ++ repeat None (Z.to_nat (concurrency cfg)) /\
  workers s0 = repeat WLoop (Z.to_nat (concurrency cfg)) /\
  results s0 = [] /\ delivered s0 = [] /\ outside s0 = w /\
  pool_inv (Z.to_nat (num_requests cfg)) (Z.to_nat (concurrency cfg)) s0.
Proof.
  intros H. destruct (start_pool_spec cfg w) as [Hneg Hpos].
  destruct (Z_lt_le_dec (concurrency cfg) 0) as [Hc|Hc].
  - rewrite (Hneg Hc) in H. discriminate.
  - destruct (Hpos Hc) as (s0' & E & Hs).
    rewrite E in H. inversion H; subst. split; [reflexivity|exact Hs].
Qed.

Lemma measure_initial (n c : nat) (s0 : pool) :
  queue s0 = map Some (seq 0 n) ++ repeat None c ->
  workers s0 = repeat WLoop c ->
  measure s0 = (3 * (n + c) + 2 * c)%nat.
Proof.
  intros Hq Hw. unfold measure.
  rewrite Hq, Hw, length_app, length_map, length_seq, repeat_length, tally_repeat.
  cbn [weight]. lia.
Qed.

(** Reading the samples back out of populated results. *)
Lemma filters_keep_all (rs : list result) :
  Forall well_formed rs ->
  map Some (not_None (map tokens_of rs)) = map tokens_of rs /\
  map Some (latencies_of rs) = map elapsed_of rs /\
  map Some (tokens_per_second_list_of rs) = map tps_of rs.
Proof.
  unfold latencies_of, tokens_per_second_list_of.
  induction 1 as [|r rs (n & el & tps & ttft & ->) Hrs (IH1 & IH2 & IH3)];
    simpl; [auto|].
  rewrite IH1, IH2, IH3. auto.
Qed.

(** A request that comes back empty left exactly one record. *)
Lemma make_request_None_logged env m mx rt w :
  fst (make_request env m mx rt w) = Returned None ->
  exists rec,
    log (snd (make_request env m mx rt w)) = log w ++ [rec] /\
    (rec = LogTimedOut rt \/ exists e, rec = LogRequestError e).
Proof.
  destruct (request_cases env)
    as [(s & t & n & Hc & Hs & _)|[(s & Hc & Hs & _)|(e & He)]].
  - destruct (make_request_success env m mx rt w s t n Hc Hs) as (w' & _ & ->).
    discriminate.
  - destruct (make_request_deadline env m mx rt w s Hc Hs) as (w' & Hl & ->).
    intros _. exists (LogTimedOut rt). auto.
  - destruct (make_request_exception env m mx rt w e He) as (w' & -> & Hl).
    cbn [fst snd]. destruct (is_Exception e); [|discriminate]. intros _.
    destruct (is_TimeoutError e).
    + exists (LogTimedOut rt). auto.
    + exists (LogRequestError e). split; [exact Hl|]. right. exists e. reflexivity.
Qed.

(** [main] returns a report only from a drained pool. *)
Lemma main_report_inv (cfg : config) (pre : request_env) (sched : list action)
      (t0 t1 : Q) (w w' : world) (r : report) :
  main cfg pre sched t0 t1 w = (Returned (GaveReport r), w') ->
  exists s0 s,
    start_pool cfg (snd (preflight_check pre (model cfg) w))
    = (Returned s0, snd (preflight_check pre (model cfg) w)) /\
    run cfg s0 sched = Some s /\ drained s = true /\
    make_report cfg (results s) t0 t1 = Returned r /\ w' = outside s.
Proof.
  rewrite main_unfold. cbv zeta.
  destruct (fst (preflight_check pre (model cfg) w)) as [[|]|e]; try discriminate.
  destruct (start_pool cfg (snd (preflight_check pre (model cfg) w)))
    as [[s0|e] w1] eqn:Es; [|discriminate].
  destruct (start_pool_returned _ _ _ _ Es) as (-> & _).
  destruct (run cfg s0 sched) as [s|] eqn:Er; [|discriminate].
  destruct (drained s) eqn:Ed; [|discriminate].
  destruct (first_exception (workers s)); [discriminate|].
  destruct (make_report cfg (results s) t0 t1) as [r'|e] eqn:Em; [|discriminate].
  intros H. inversion H; subst. exists s0, s. auto.
Qed.

(** *** The pool drains *)

(** From every pool with a worker and none crashed some schedule of benign
    answers leads to a drained pool. *)
Lemma drained_reachable (n c : nat) (cfg : config) :
  (1 <= c)%nat ->
  forall (m : nat) (s : pool),
    (measure s <= m)%nat -> pool_inv n c s ->
    tally crashed (workers s) = O ->
    exists sched' s',
      forallb benign_action sched' = true
      /\ run cfg s sched' = Some s' /\ drained s' = true
      /\ pool_inv n c s'.
Proof.
  intros Hc.
  assert (Hstep : forall (m : nat) (s : pool),
             (forall s1, (measure s1 <= m)%nat -> pool_inv n c s1 ->
                         tally crashed (workers s1) = O ->
                         exists sched' s',
                           forallb benign_action sched' = true
                           /\ run cfg s1 sched' = Some s' /\ drained s' = true
                           /\ pool_inv n c s') ->
             (measure s <= S m)%nat -> pool_inv n c s ->
             tally crashed (workers s) = O -> drained s = false ->
             exists sched' s',
               forallb benign_action sched' = true
               /\ run cfg s sched' = Some s' /\ drained s' = true
               /\ pool_inv n c s').
  { intros m s IH Hm I Hcr Hd.
    assert (Hmove : exists a s1, benign_action a = true /\ step cfg s a = Some s1).
    { destruct (pool_progress n c cfg s I Hc Hcr Hd) as (v & [(s1 & H1)|Hall]).
      - exists (Next v), s1. auto.
      - destruct (Hall env_empty) as (s1 & H1).
        exists (Reply v env_empty), s1. auto. }
    destruct Hmove as (a & s1 & Ha & H1).
    destruct (step_later n c cfg s s1 a I H1) as [L1 _ _ _ _ L6 _].
    cbn [length] in L1.
    assert (Hb : forallb benign_action [a] = true) by (cbn; rewrite Ha; reflexivity).
    destruct (IH s1) as (sched' & s' & B1 & B2 & B3 & B4).
    - lia.
    - eapply step_inv; eauto.
    - rewrite (L6 Hb). exact Hcr.
    - exists (a :: sched'), s'. cbn. rewrite Ha, H1. auto. }
  induction m as [|m IH]; intros s Hm I Hcr.
  - destruct (drained s) eqn:Hd.
    + exists [], s. auto.
    + destruct (pool_progress n c cfg s I Hc Hcr Hd) as (v & [(s1 & H1)|Hall]).
      * destruct (step_later n c cfg s s1 _ I H1) as [L1 _ _ _ _ _ _].
        cbn [length] in L1. lia.
      * destruct (Hall env_empty) as (s1 & H1).
        destruct (step_later n c cfg s s1 _ I H1) as [L1 _ _ _ _ _ _].
        cbn [length] in L1. lia.
  - destruct (drained s) eqn:Hd.
    + exists [], s. auto.
    + apply (Hstep m s IH Hm I Hcr Hd).
Qed.

(** * The claims *)

(** C1 (amended).  Whatever the client does, as long as every exception it
    raises while the request is issued or the stream is read derives from
    [Exception] (the timeout of the stream-consumption phase included),
    [make_request] returns: a populated tuple and no log record when no
    exception was met, and otherwise [None] with one log record, a warning
    for a timeout and an error for any other exception.  It never raises. *)
Theorem make_request_absorbs_exceptions
        (env : request_env) (m : string) (mx rt : Z) (w : world) :
  benign env = true ->
  exists r w',
    make_request env m mx rt w = (Returned r, w') /\
    match r with
    | Some tup =>
        well_formed tup /\ log w' = log w /\ exception_met env = None
    | None =>
        log w' = log w ++ [LogTimedOut rt]
        \/ exists e, exception_met env = Some e
                     /\ log w' = log w ++ [LogRequestError e]
    end.
Proof.
  unfold benign. intros Hb.
  destruct (request_cases env)
    as [(s & t & n & Hc & Hs & Hn)|[(s & Hc & Hs & Hn)|(e & He)]].
  - destruct (make_request_success env m mx rt w s t n Hc Hs) as (w' & Hl & E).
    do 2 eexists. split; [exact E|]. cbv beta iota.
    split; [|split; assumption]. unfold well_formed. eauto.
  - destruct (make_request_deadline env m mx rt w s Hc Hs) as (w' & Hl & E).
    do 2 eexists. split; [exact E|]. left. exact Hl.
  - destruct (make_request_exception env m mx rt w e He) as (w' & E & Hl).
    rewrite He in Hb. rewrite Hb in E, Hl.
    do 2 eexists. split; [exact E|]. cbv beta iota.
    destruct (is_TimeoutError e); [left; exact Hl|right; eauto].
Qed.

Lemma make_request_absorbs_exceptions_witness :
  benign env_timeout = true /\
  exists r w', make_request env_timeout "m" 128 300 empty_world = (Returned r, w')
               /\ match r with
                  | Some tup =>
                      well_formed tup /\ log w' = log empty_world
                      /\ exception_met env_timeout = None
                  | None =>
                      log w' = log empty_world ++ [LogTimedOut 300]
                      \/ exists e, exception_met env_timeout = Some e
                                   /\ log w' = log empty_world ++ [LogRequestError e]
                  end.
Proof.
  split; [reflexivity|].
  apply (make_request_absorbs_exceptions env_timeout "m" 128 300 empty_world).
  reflexivity.
Defined.

(** C1 as stated fails: an exception outside the [Exception] hierarchy, here
    the cancellation of the awaiting task, passes both [except] clauses and
    reaches the caller; nothing is logged. *)
Lemma make_request_propagates_cancellation :
  created env_cancelled = inl CancelledError /\
  fst (make_request env_cancelled "m" 128 300 empty_world) = Raised CancelledError /\
  log (snd (make_request env_cancelled "m" 128 300 empty_world)) = [].
Proof. repeat split. Qed.

(** C2 (amended).  For a request that succeeded, with the clock not reading
    exactly zero at the first fragment: the time to the first increment is
    [None] exactly when the stream delivered no fragment at all, and
    otherwise it is the clock reading at the first fragment, whatever its
    content, minus the start reading. *)
Theorem ttft_absent_iff_no_fragment
        (env : request_env) (m : string) (mx rt : Z) (w w' : world)
        (s : stream) (n : option Z) (el tps ttft : option Q) :
  created env = inr s ->
  make_request env m mx rt w = (Returned (Some (n, el, tps, ttft)), w') ->
  (forall t, first_arrival s = Some t -> ~ (t == 0)%Q) ->
  (ttft = None <-> first_arrival s = None) /\
  (forall t, first_arrival s = Some t -> ttft = Some (t - clock_start env)%Q).
Proof.
  intros Hc Hm Hnz.
  assert (Ht : ttft = ttft_of (first_arrival s) (clock_start env)).
  { destruct (process_stream s) as [t k|e|] eqn:Hs.
    - destruct (make_request_success env m mx rt w s t k Hc Hs) as (w1 & _ & E).
      rewrite E in Hm. inversion Hm; subst.
      rewrite (process_stream_first_arrival s t k Hs). reflexivity.
    - destruct (make_request_exception env m mx rt w e) as (w1 & E & _).
      { unfold exception_met. rewrite Hc, Hs. reflexivity. }
      rewrite E in Hm. destruct (is_Exception e); discriminate.
    - destruct (make_request_deadline env m mx rt w s Hc Hs) as (w1 & _ & E).
      rewrite E in Hm. discriminate. }
  subst ttft. unfold ttft_of.
  destruct (first_arrival s) as [t|].
  - rewrite (float_truthy_nonzero t (Hnz t eq_refl)).
    split; [split; discriminate|]. intros t' Ht'. inversion Ht'. reflexivity.
  - split; [split; reflexivity|]. discriminate.
Qed.

Lemma ttft_absent_iff_no_fragment_witness :
  created env_ok
  = inr [Fragment 11 (text_chunk "Hello"); Fragment 12 (text_chunk " world");
         Fragment 13 stop_chunk] /\
  (Some (11 - 10)%Q = None
   <-> first_arrival [Fragment 11 (text_chunk "Hello");
                      Fragment 12 (text_chunk " world");
                      Fragment 13 stop_chunk] = None) /\
  (forall t,
      first_arrival [Fragment 11 (text_chunk "Hello");
                     Fragment 12 (text_chunk " world");
                     Fragment 13 stop_chunk] = Some t ->
      Some (11 - 10)%Q = Some (t - clock_start env_ok)%Q).
Proof.
  split; [reflexivity|].
  apply (ttft_absent_iff_no_fragment env_ok "m" 128 300 empty_world
           (snd (make_request env_ok "m" 128 300 empty_world))
           _ (Some 2) (Some (14 - 10)%Q)
           (Some (inject_Z 2 / (14 - 10))%Q) (Some (11 - 10)%Q)).
  - reflexivity.
  - reflexivity.
  - intros t Ht. inversion Ht; subst. discriminate.
Defined.

(** C2 as stated fails: a stream whose only fragment is terminal and carries
    no content produces no increment (the token count is 0), yet the time to
    the first increment is present: it is the arrival of that fragment. *)
Lemma ttft_present_without_increment :
  created env_silent = inr [Fragment 11 stop_chunk] /\
  produced_increment [Fragment 11 stop_chunk] = false /\
  fst (make_request env_silent "m" 128 300 empty_world)
  = Returned (Some (Some 0, Some (12 - 10)%Q, Some (inject_Z 0 / (12 - 10))%Q,
                    Some (11 - 10)%Q)).
Proof. repeat split. Qed.

(** C5.  In reverse mode [calculate_percentile] answers what it answers in
    normal mode for [100 - p]; for a non-empty collection and [p] in
    [0, 100] that is the value at the rank of [100 - p] under the same
    interpolation; and the p99 of the report's throughput block is the 1st
    percentile of the throughput samples. *)
Theorem reverse_is_complement (values : list Q) (p : Q) :
  calculate_percentile values p true
  = calculate_percentile values (100 - p) false
  /\ (values <> [] -> (0 <= p)%Q -> (p <= 100)%Q ->
      calculate_percentile values p true
      = Returned (Some (at_rank (sort_samples values)
                                (virtual_index (length values) (100 - p)))))
  /\ (forall cfg rs t0 t1,
         exists r,
           make_report cfg rs t0 t1 = Returned r /\
           Returned (p99 (tokens_per_second r))
           = calculate_percentile (tokens_per_second_list_of rs) 1 false).
Proof.
  split; [|split].
  - destruct values; reflexivity.
  - intros Hne H0 H1. destruct values as [|a0 rest]; [congruence|].
    apply (calculate_percentile_value a0 rest p true H0 H1).
  - intros cfg rs t0 t1.
    destruct (make_report_total cfg rs t0 t1)
      as (r & E & _ & _ & _ & _ & _ & _ & (a & Hb) & _).
    exists r. split; [exact E|].
    apply percentile_block_inv in Hb as (_ & _ & H99).
    rewrite <- H99. destruct (tokens_per_second_list_of rs); reflexivity.
Qed.

Lemma reverse_is_complement_witness :
  calculate_percentile [3; 1; 2; 10]%Q 99 true
  = Returned (Some (at_rank (sort_samples [3; 1; 2; 10]%Q)
                            (virtual_index 4 (100 - 99)))).
Proof.
  apply (proj1 (proj2 (reverse_is_complement [3; 1; 2; 10]%Q 99%Q))).
  - discriminate.
  - unfold Qle. simpl. lia.
  - unfold Qle. simpl. lia.
Defined.

(** C6.  For a fixed non-empty collection the percentile does not decrease
    with the requested rank in normal mode and does not increase with it in
    reverse mode; so in every report p50 <= p95 <= p99 for latency and for
    time to first token, and p50 >= p95 >= p99 for throughput. *)
Theorem percentiles_monotone (a0 : Q) (rest : list Q) :
  (forall p q, (0 <= p)%Q -> (p <= q)%Q -> (q <= 100)%Q ->
     exists x y,
       calculate_percentile (a0 :: rest) p false = Returned (Some x) /\
       calculate_percentile (a0 :: rest) q false = Returned (Some y) /\
       (x <= y)%Q)
  /\ (forall p q, (0 <= p)%Q -> (p <= q)%Q -> (q <= 100)%Q ->
     exists x y,
       calculate_percentile (a0 :: rest) p true = Returned (Some x) /\
       calculate_percentile (a0 :: rest) q true = Returned (Some y) /\
       (y <= x)%Q)
  /\ (forall avg, exists b,
         percentile_block (a0 :: rest) false avg = Returned b /\ ascending b
         /\ p50 b <> None)
  /\ (forall avg, exists b,
         percentile_block (a0 :: rest) true avg = Returned b /\ descending b
         /\ p50 b <> None)
  /\ (forall cfg rs t0 t1, exists r,
         make_report cfg rs t0 t1 = Returned r /\
         ascending (latency r) /\ descending (tokens_per_second r) /\
         ascending (time_to_first_token r)).
Proof.
  repeat split.
  - intros p q H0 Hpq H1.
    do 2 eexists.
    rewrite !calculate_percentile_value by lra.
    repeat split. apply percentile_monotone; assumption.
  - intros p q H0 Hpq H1.
    do 2 eexists.
    rewrite !calculate_percentile_value by lra.
    repeat split. apply percentile_monotone; lra.
  - intros avg.
    destruct (percentile_block_total (a0 :: rest) false avg)
      as (x & y & z & Hx & _ & _ & E).
    eexists. split; [exact E|]. split; [eapply block_ascending; exact E|].
    cbn [p50]. rewrite calculate_percentile_value in Hx by (unfold Qle; simpl; lia).
    inversion Hx. discriminate.
  - intros avg.
    destruct (percentile_block_total (a0 :: rest) true avg)
      as (x & y & z & Hx & _ & _ & E).
    eexists. split; [exact E|]. split; [eapply block_descending; exact E|].
    cbn [p50]. rewrite calculate_percentile_value in Hx by (unfold Qle; simpl; lia).
    inversion Hx. discriminate.
  - intros cfg rs t0 t1.
    destruct (make_report_total cfg rs t0 t1)
      as (r & E & _ & _ & _ & _ & _ & (a1 & H1) & (a2 & H2) & (a3 & H3)).
    exists r. split; [exact E|].
    split; [eapply block_ascending; exact H1|].
    split; [eapply block_descending; exact H2|eapply block_ascending; exact H3].
Qed.

(** C7.  On an empty collection [calculate_percentile] returns [None] for
    every percentile and in both modes, without raising; on a non-empty
    collection, for a percentile in [0, 100], it returns the value
    interpolated at the percentile's rank in the sorted samples. *)
Theorem calculate_percentile_empty_or_value :
  (forall p reverse, calculate_percentile [] p reverse = Returned None)
  /\ (forall values p reverse,
         values <> [] -> (0 <= p)%Q -> (p <= 100)%Q ->
         calculate_percentile values p reverse
         = Returned (Some (at_rank (sort_samples values)
                                   (virtual_index (length values)
                                      (if reverse then (100 - p)%Q else p))))).
Proof.
  split.
  - reflexivity.
  - intros values p reverse Hne H0 H1. destruct values as [|a0 rest]; [congruence|].
    apply calculate_percentile_value; assumption.
Qed.

Lemma calculate_percentile_empty_or_value_witness :
  calculate_percentile [3; 1; 2; 10]%Q 50 false
  = Returned (Some (at_rank (sort_samples [3; 1; 2; 10]%Q) (virtual_index 4 50))).
Proof.
  apply (proj2 calculate_percentile_empty_or_value [3; 1; 2; 10]%Q 50%Q false).
  - discriminate.
  - unfold Qle. simpl. lia.
  - unfold Qle. simpl. lia.
Defined.

(** C8.  Neither division by an elapsed time can raise: the throughput of a
    request and the requests per second of a run are always returned, and
    are zero when the elapsed time is not positive; so it is in the tuple
    [make_request] returns and in the report [main] assembles. *)
Theorem elapsed_divisions_guarded :
  (forall total_tokens elapsed_time, exists q,
      tokens_per_second_of total_tokens elapsed_time = Returned q /\
      ((elapsed_time <= 0)%Q -> q = 0%Q) /\
      ((0 < elapsed_time)%Q -> q = (inject_Z total_tokens / elapsed_time)%Q))
  /\ (forall successful total_elapsed_time, exists q,
      requests_per_second_of successful total_elapsed_time = Returned q /\
      ((total_elapsed_time <= 0)%Q -> q = 0%Q) /\
      ((0 < total_elapsed_time)%Q
       -> q = (inject_Z successful / total_elapsed_time)%Q))
  /\ (forall env m mx rt w s t n,
      created env = inr s -> process_stream s = ReaderReturned t n ->
      exists tps ttft w',
        make_request env m mx rt w
        = (Returned (Some (Some n, Some (clock_end env - clock_start env)%Q,
                           Some tps, ttft)), w') /\
        ((clock_end env - clock_start env <= 0)%Q -> tps = 0%Q))
  /\ (forall cfg rs t0 t1, exists r,
      make_report cfg rs t0 t1 = Returned r /\
      ((t1 - t0 <= 0)%Q -> requests_per_second r = 0%Q)).
Proof.
  repeat split.
  - intros n el. rewrite tokens_per_second_of_total. eexists.
    split; [reflexivity|]. split; intros H.
    + apply Qpositive_false in H. rewrite H. reflexivity.
    + apply Qpositive_true in H. rewrite H. reflexivity.
  - intros n el. rewrite requests_per_second_of_total. eexists.
    split; [reflexivity|]. split; intros H.
    + apply Qpositive_false in H. rewrite H. reflexivity.
    + apply Qpositive_true in H. rewrite H. reflexivity.
  - intros env m mx rt w s t n Hc Hs.
    destruct (make_request_success env m mx rt w s t n Hc Hs) as (w' & _ & E).
    do 3 eexists. split; [exact E|].
    intros H. apply Qpositive_false in H. rewrite H. reflexivity.
  - intros cfg rs t0 t1.
    destruct (make_report_total cfg rs t0 t1) as (r & E & _ & _ & _ & Hr & _).
    exists r. split; [exact E|].
    intros H. apply Qpositive_false in H. rewrite Hr, H. reflexivity.
Qed.

Lemma elapsed_divisions_guarded_witness :
  exists tps ttft w',
    make_request env_instant "m" 128 300 empty_world
    = (Returned (Some (Some 1, Some (10 - 10)%Q, Some tps, ttft)), w')
    /\ ((10 - 10 <= 0)%Q -> tps = 0%Q).
Proof.
  apply (proj1 (proj2 (proj2 elapsed_divisions_guarded))
           env_instant "m"%string 128 300 empty_world
           [Fragment 10 (text_chunk "Hi"); Fragment 10 stop_chunk] (Some 10%Q) 1%Z);
    reflexivity.
Defined.

(** C3 (amended).  The pool [main] starts holds the task indices 0..N-1
    followed by C sentinels in one FIFO queue, and has C workers.  In every
    pool reached from it the items handed out so far, in order, followed by
    the queue are that initial queue, so no item is handed out twice or
    skipped; the workers that received a sentinel are pairwise distinct; a
    worker that received one has left its loop and makes no further step; and
    in a drained pool the task indices handed out are exactly 0..N-1, each
    once, and exactly C sentinels were handed out.  With a concurrency of at
    least 1, and every request completing, timing out or failing with an
    exception derived from [Exception], the drained pool is reached: no
    execution is longer than 3 (N + C) + 2 C steps, in every pool that is not
    drained some worker can make a step, and from every pool some schedule
    leads to a drained one. *)
Theorem queue_hands_out_each_item_once
        (cfg : config) (w w' : world) (s0 s : pool) (sched : list action) :
  start_pool cfg w = (Returned s0, w') ->
  run cfg s0 sched = Some s ->
  queue s0 = map Some (seq 0 (Z.to_nat (num_requests cfg)))
             ++ repeat None (Z.to_nat (concurrency cfg))
  /\ length (workers s0) = Z.to_nat (concurrency cfg)
  /\ map snd (delivered s) ++ queue s = queue s0
  /\ NoDup (sentinel_takers s)
  /\ (forall v, In v (sentinel_takers s) ->
        nth_error (workers s) v = Some WDone
        /\ step cfg s (Next v) = None
        /\ forall env, step cfg s (Reply v env) = None)
  /\ (drained s = true ->
        queue s = []
        /\ tasks_delivered s = seq 0 (Z.to_nat (num_requests cfg))
        /\ length (sentinel_takers s) = Z.to_nat (concurrency cfg))
  /\ (1 <= concurrency cfg ->
      forallb benign_action sched = true ->
      (length sched <= 3 * (Z.to_nat (num_requests cfg)
                            + Z.to_nat (concurrency cfg))
                       + 2 * Z.to_nat (concurrency cfg))%nat
      /\ (drained s = false ->
          exists v,
            (exists s1, step cfg s (Next v) = Some s1)
            \/ (forall env, exists s1, step cfg s (Reply v env) = Some s1))
      /\ exists sched' s',
          forallb benign_action sched' = true
          /\ run cfg s sched' = Some s'
          /\ drained s' = true
          /\ queue s' = []
          /\ tasks_delivered s' = seq 0 (Z.to_nat (num_requests cfg))
          /\ length (sentinel_takers s') = Z.to_nat (concurrency cfg)).
Proof.
  intros Hs Hr.
  destruct (start_pool_returned _ _ _ _ Hs) as (_ & Hq & Hw & _ & _ & _ & I0).
  pose proof (run_inv _ _ _ _ _ _ I0 Hr) as I.
  split; [exact Hq|].
  split; [apply (inv_workers _ _ _ I0)|].
  split; [rewrite Hq; apply (inv_history _ _ _ I)|].
  split; [apply (inv_takers_distinct _ _ _ I)|].
  split.
  { intros v Hv. apply (inv_takers_done _ _ _ I) in Hv.
    split; [exact Hv|]. eapply ended_worker_stays; [exact Hv|reflexivity]. }
  split.
  { intros Hd.
    destruct (drained_pool _ _ _ I Hd) as (E1 & _ & E3 & E4 & _).
    auto. }
  intros Hc Hb.
  assert (Hc' : (1 <= Z.to_nat (concurrency cfg))%nat) by lia.
  destruct (run_later _ _ _ _ _ _ I0 Hr) as [L1 _ _ _ _ L6 _].
  rewrite (measure_initial _ _ _ Hq Hw) in L1.
  assert (Hcr : tally crashed (workers s) = O).
  { rewrite (L6 Hb), Hw, tally_repeat. cbn. lia. }
  split; [lia|]. split.
  - intros Hd. eapply pool_progress; eauto.
  - destruct (drained_reachable _ _ cfg Hc' (measure s) s (Nat.le_refl _) I Hcr)
      as (sched' & s' & B1 & B2 & B3 & B4).
    destruct (drained_pool _ _ _ B4 B3) as (E1 & _ & E3 & E4 & _).
    exists sched', s'. auto 7.
Qed.

Lemma queue_hands_out_each_item_once_witness :
  (start_pool cfg_2_2 world_after_preflight
   = (Returned pool_2_2, world_after_preflight)
   /\ run cfg_2_2 pool_2_2 [] = Some pool_2_2
   /\ 1 <= concurrency cfg_2_2
   /\ forallb benign_action [] = true)
  /\ (length (@nil action)
      <= 3 * (Z.to_nat (num_requests cfg_2_2) + Z.to_nat (concurrency cfg_2_2))
         + 2 * Z.to_nat (concurrency cfg_2_2))%nat
  /\ (drained pool_2_2 = false ->
      exists v,
        (exists s1, step cfg_2_2 pool_2_2 (Next v) = Some s1)
        \/ (forall env, exists s1, step cfg_2_2 pool_2_2 (Reply v env) = Some s1))
  /\ exists sched' s',
      forallb benign_action sched' = true
      /\ run cfg_2_2 pool_2_2 sched' = Some s'
      /\ drained s' = true
      /\ queue s' = []
      /\ tasks_delivered s' = seq 0 (Z.to_nat (num_requests cfg_2_2))
      /\ length (sentinel_takers s') = Z.to_nat (concurrency cfg_2_2).
Proof.
  assert (Hs : start_pool cfg_2_2 world_after_preflight
               = (Returned pool_2_2, world_after_preflight))
    by (vm_compute; reflexivity).
  assert (Hr : run cfg_2_2 pool_2_2 [] = Some pool_2_2) by reflexivity.
  assert (Hc : 1 <= concurrency cfg_2_2) by (vm_compute; discriminate).
  assert (Hb : forallb benign_action [] = true) by reflexivity.
  split; [repeat split; assumption|].
  exact (proj2 (proj2 (proj2 (proj2 (proj2 (proj2
           (queue_hands_out_each_item_once cfg_2_2 world_after_preflight
              world_after_preflight pool_2_2 pool_2_2 [] Hs Hr)))))) Hc Hb).
Defined.

(** C3 as stated fails: with one request and concurrency 0 the queue holds
    the task index 0 and nothing else, there is no worker, no step is
    enabled, and in whatever pool an execution ends the index 0 is still in
    the queue: it is never handed out. *)
Lemma no_task_dequeued_without_workers :
  start_pool cfg_1_0 world_after_preflight
  = (Returned pool_1_0, world_after_preflight)
  /\ queue pool_1_0 = [Some 0%nat]
  /\ workers pool_1_0 = []
  /\ (forall sched s,
         run cfg_1_0 pool_1_0 sched = Some s ->
         sched = [] /\ tasks_delivered s = [] /\ queue s = [Some 0%nat]
         /\ drained s = false).
Proof.
  split; [vm_compute; reflexivity|].
  split; [reflexivity|]. split; [reflexivity|].
  intros sched s H. destruct sched as [|a sched].
  - inversion H; subst. repeat split.
  - exfalso. cbn [run] in H.
    assert (Hn : step cfg_1_0 pool_1_0 a = None)
      by (destruct a as [[|v]|[|v] env]; reflexivity).
    rewrite Hn in H. discriminate.
Qed.

(** C4 (amended).  If the preflight check, one executor call with at most 16
    tokens and 5 seconds, comes back empty, [main] logs the failure and
    returns no report, whatever the schedule: no pool is built and the only
    request sent is the preflight's.  If it succeeds, the concurrency is at
    least 1 and every request completes, times out or fails with an
    exception derived from [Exception], then a report is always produced:
    no execution of the pool is longer than 3 (N + C) + 2 C steps, at the end
    of each one either the pool is drained and [main] returns the report, or
    some worker can make a step whatever its request answers. *)
Theorem preflight_gates_the_run
        (cfg : config) (pre : request_env) (w : world) (sched : list action)
        (t0 t1 : Q) :
  (fst (preflight_check pre (model cfg) w) = Returned false ->
   exists rec c,
     main cfg pre sched t0 t1 w
     = (Returned GaveNone,
        {| log := log w ++ [rec; LogPreflightFailed];
           issued := issued w ++ [{| req_model := model cfg; req_content := c;
                                     req_max_completion_tokens := 16 |}] |})
     /\ (rec = LogTimedOut 5 \/ exists e, rec = LogRequestError e))
  /\ (fst (preflight_check pre (model cfg) w) = Returned true ->
      1 <= concurrency cfg ->
      forallb benign_action sched = true ->
      exists s0,
        start_pool cfg (snd (preflight_check pre (model cfg) w))
        = (Returned s0, snd (preflight_check pre (model cfg) w))
        /\ forall s,
          run cfg s0 sched = Some s ->
          (length sched <= 3 * (Z.to_nat (num_requests cfg)
                                + Z.to_nat (concurrency cfg))
                           + 2 * Z.to_nat (concurrency cfg))%nat
          /\ if drained s
             then exists r,
                 main cfg pre sched t0 t1 w = (Returned (GaveReport r), outside s)
             else main cfg pre sched t0 t1 w = (Returned (Waiting s), outside s)
                  /\ exists v,
                      (exists s', step cfg s (Next v) = Some s')
                      \/ (forall env, exists s', step cfg s (Reply v env) = Some s')).
Proof.
  split.
  - intros Hp. rewrite main_unfold. cbv zeta. rewrite Hp.
    rewrite preflight_check_unfold in Hp |- *. cbn [fst snd] in *.
    assert (Hn : fst (make_request pre (model cfg) 16 5 w) = Returned None).
    { destruct (fst (make_request pre (model cfg) 16 5 w)) as [[r|]|e];
        [discriminate|reflexivity|discriminate]. }
    destruct (make_request_None_logged _ _ _ _ _ Hn) as (rec & Hl & Hrec).
    destruct (make_request_issued pre (model cfg) 16 5 w) as (c & _ & Hi).
    exists rec, c. split; [|exact Hrec].
    rewrite Hl, Hi, <- app_assoc. reflexivity.
  - intros Hp Hc Hb.
    destruct (start_pool_spec cfg (snd (preflight_check pre (model cfg) w)))
      as [_ Hpos].
    destruct Hpos as (s0 & Es & Hq & Hw & Hres & Hdel & Hout & I0); [lia|].
    exists s0. split; [exact Es|].
    intros s Hr.
    pose proof (run_inv _ _ _ _ _ _ I0 Hr) as I.
    destruct (run_later _ _ _ _ _ _ I0 Hr) as [L1 _ _ _ _ L6 _].
    rewrite (measure_initial _ _ _ Hq Hw) in L1.
    split; [lia|].
    assert (Hcr : tally crashed (workers s) = O).
    { rewrite (L6 Hb), Hw, tally_repeat. cbn. lia. }
    rewrite main_unfold. cbv zeta. rewrite Hp, Es, Hr.
    destruct (drained s) eqn:Hd.
    + destruct (drained_pool _ _ _ I Hd) as (_ & _ & _ & _ & _ & _ & Hf).
      rewrite Hf.
      destruct (make_report_total cfg (results s) t0 t1) as (r & -> & _).
      exists r. reflexivity.
    + split; [reflexivity|].
      eapply pool_progress; eauto. lia.
Qed.

Lemma preflight_gates_the_run_witness :
  (fst (preflight_check env_ok "m" empty_world) = Returned true
   /\ 1 <= concurrency cfg_2_2
   /\ forallb benign_action sched_2_2 = true
   /\ run cfg_2_2 pool_2_2 sched_2_2 = Some final_2_2
   /\ drained final_2_2 = true)
  /\ exists s0,
      start_pool cfg_2_2 (snd (preflight_check env_ok (model cfg_2_2) empty_world))
      = (Returned s0, snd (preflight_check env_ok (model cfg_2_2) empty_world))
      /\ forall s,
        run cfg_2_2 s0 sched_2_2 = Some s ->
        (length sched_2_2 <= 3 * (Z.to_nat (num_requests cfg_2_2)
                                  + Z.to_nat (concurrency cfg_2_2))
                             + 2 * Z.to_nat (concurrency cfg_2_2))%nat
        /\ if drained s
           then exists r,
               main cfg_2_2 env_ok sched_2_2 100 110 empty_world
               = (Returned (GaveReport r), outside s)
           else main cfg_2_2 env_ok sched_2_2 100 110 empty_world
                = (Returned (Waiting s), outside s)
                /\ exists v,
                    (exists s', step cfg_2_2 s (Next v) = Some s')
                    \/ (forall env, exists s',
                           step cfg_2_2 s (Reply v env) = Some s').
Proof.
  assert (Hp : fst (preflight_check env_ok "m" empty_world) = Returned true)
    by (vm_compute; reflexivity).
  assert (Hc : 1 <= concurrency cfg_2_2) by (vm_compute; discriminate).
  assert (Hb : forallb benign_action sched_2_2 = true)
    by (vm_compute; reflexivity).
  split.
  - split; [exact Hp|]. split; [exact Hc|]. split; [exact Hb|].
    split; vm_compute; reflexivity.
  - exact (proj2 (preflight_gates_the_run cfg_2_2 env_ok empty_world sched_2_2
                                          100 110) Hp Hc Hb).
Defined.

(** C4 as stated fails: with one request and concurrency 0 the preflight
    check succeeds, the pool holds the task and neither a sentinel nor a
    worker, no step is enabled, and [main] waits in [queue.join()] for ever:
    no schedule makes it return a report. *)
Lemma no_report_without_workers :
  fst (preflight_check env_ok "m" empty_world) = Returned true
  /\ start_pool cfg_1_0 world_after_preflight
     = (Returned pool_1_0, world_after_preflight)
  /\ drained pool_1_0 = false
  /\ (forall a, step cfg_1_0 pool_1_0 a = None)
  /\ (forall t0 t1,
         fst (main cfg_1_0 env_ok [] t0 t1 empty_world)
         = Returned (Waiting pool_1_0))
  /\ (forall a sched t0 t1,
         fst (main cfg_1_0 env_ok (a :: sched) t0 t1 empty_world)
         = Returned NotAnExecution).
Proof.
  split; [vm_compute; reflexivity|].
  split; [vm_compute; reflexivity|].
  split; [vm_compute; reflexivity|].
  split; [|split].
  - intros [[|v]|[|v] env]; reflexivity.
  - intros t0 t1. vm_compute. reflexivity.
  - intros [[|v]|[|v] env] sched t0 t1; vm_compute; reflexivity.
Qed.

(** C9.  When [main] returns a report for a run with N >= 0 requests, the
    report's successful_requests is the number of executor calls of the run
    that returned a populated tuple, it is at most total_requests, and
    together with the number of calls that came back empty (each logged as
    "Request .. failed") it makes total_requests; the sample set holds the
    populated tuples and nothing else. *)
Theorem successful_plus_failed_is_total
        (cfg : config) (pre : request_env) (sched : list action) (t0 t1 : Q)
        (w w' : world) (r : report) :
  0 <= num_requests cfg ->
  main cfg pre sched t0 t1 w = (Returned (GaveReport r), w') ->
  total_requests r = num_requests cfg
  /\ successful_requests r = Z.of_nat (length (populated cfg sched))
  /\ successful_requests r <= total_requests r
  /\ successful_requests r + Z.of_nat (failures cfg sched) = total_requests r
  /\ failed_logged (log w') = (failed_logged (log w) + failures cfg sched)%nat
  /\ exists s0 s,
      run cfg s0 sched = Some s /\ results s0 = []
      /\ results s = populated cfg sched
      /\ make_report cfg (results s) t0 t1 = Returned r.
Proof.
  intros HN Hm.
  destruct (main_report_inv _ _ _ _ _ _ _ _ Hm) as (s0 & s & Es & Hr & Hd & Hrep & ->).
  destruct (start_pool_returned _ _ _ _ Es) as (_ & Hq & Hw & Hres & Hdel & Hout & I0).
  pose proof (run_inv _ _ _ _ _ _ I0 Hr) as I.
  destruct (run_later _ _ _ _ _ _ I0 Hr) as [_ L2 L3 L4 L5 _ _].
  destruct (drained_pool _ _ _ I Hd) as (_ & _ & D3 & _ & D5 & D6 & _).
  destruct (make_report_total cfg (results s) t0 t1)
    as (r' & E & R1 & R2 & _).
  rewrite E in Hrep. inversion Hrep; subst r'.
  rewrite Hres in L2. cbn [app] in L2.
  assert (Hf0 : failed_logged (log (outside s0)) = failed_logged (log w)).
  { rewrite Hout, preflight_check_unfold. cbn [snd].
    apply make_request_failed_logged. }
  unfold accounted, tasks_delivered in L4, L5.
  fold (tasks_delivered s) in L4, L5.
  rewrite ?D3, ?D5, ?D6, ?length_seq, ?Hdel, ?Hres, ?Hw, ?tally_repeat in L4, L5.
  cbn [map not_None length in_request crashed] in L4, L5.
  rewrite ?L3 in L4, L5. rewrite L2 in L4, L5, R2.
  repeat split.
  - exact R1.
  - exact R2.
  - rewrite R1, R2. lia.
  - rewrite R1, R2. lia.
  - rewrite L3, Hf0. reflexivity.
  - exists s0, s. rewrite <- L2. auto.
Qed.

Lemma successful_plus_failed_is_total_witness :
  exists r w',
    main cfg_2_2 env_ok sched_2_2 100 110 empty_world
    = (Returned (GaveReport r), w')
    /\ total_requests r = 2
    /\ successful_requests r = 1
    /\ successful_requests r + Z.of_nat (failures cfg_2_2 sched_2_2)
       = total_requests r.
Proof.
  assert (Hm : exists r w',
             main cfg_2_2 env_ok sched_2_2 100 110 empty_world
             = (Returned (GaveReport r), w')).
  { eexists. eexists. vm_compute. reflexivity. }
  destruct Hm as (r & w' & Hm).
  exists r, w'. split; [exact Hm|].
  assert (HN : 0 <= num_requests cfg_2_2) by (vm_compute; discriminate).
  destruct (successful_plus_failed_is_total cfg_2_2 env_ok sched_2_2 100 110
              empty_world w' r HN Hm) as (H1 & H2 & _ & H4 & _).
  split; [exact H1|]. split; [|exact H4].
  rewrite H2. vm_compute. reflexivity.
Defined.

(** C10.  Every tuple in the results list of a pool [main] can reach has its
    token count, elapsed time and throughput present; so the three filters
    on [None] keep every entry, and the latency and throughput sample lists
    have exactly successful_requests entries each. *)
Theorem appended_results_are_populated
        (cfg : config) (w w' : world) (s0 s : pool) (sched : list action) :
  start_pool cfg w = (Returned s0, w') ->
  run cfg s0 sched = Some s ->
  Forall well_formed (results s)
  /\ map Some (not_None (map tokens_of (results s))) = map tokens_of (results s)
  /\ map Some (latencies_of (results s)) = map elapsed_of (results s)
  /\ map Some (tokens_per_second_list_of (results s)) = map tps_of (results s)
  /\ forall t0 t1, exists r,
      make_report cfg (results s) t0 t1 = Returned r
      /\ successful_requests r = Z.of_nat (length (results s))
      /\ successful_requests r = Z.of_nat (length (latencies_of (results s)))
      /\ successful_requests r
         = Z.of_nat (length (tokens_per_second_list_of (results s))).
Proof.
  intros Hs Hr.
  destruct (start_pool_returned _ _ _ _ Hs) as (_ & _ & _ & Hres & _ & _ & I0).
  destruct (run_later _ _ _ _ _ _ I0 Hr) as [_ _ _ _ _ _ L7].
  assert (Hwf : Forall well_formed (results s)).
  { apply L7. rewrite Hres. constructor. }
  destruct (filters_keep_all _ Hwf) as (F1 & F2 & F3).
  split; [exact Hwf|]. split; [exact F1|]. split; [exact F2|]. split; [exact F3|].
  intros t0 t1.
  destruct (make_report_total cfg (results s) t0 t1) as (r & E & _ & R2 & _).
  exists r. split; [exact E|]. split; [exact R2|].
  apply (f_equal (@length (option Q))) in F2, F3.
  rewrite !length_map in F2, F3. rewrite R2, F2, F3. auto.
Qed.

Lemma appended_results_are_populated_witness :
  start_pool cfg_2_2 world_after_preflight = (Returned pool_2_2, world_after_preflight)
  /\ run cfg_2_2 pool_2_2 sched_2_2 = Some final_2_2
  /\ Forall well_formed (results final_2_2)
  /\ map Some (latencies_of (results final_2_2)) = map elapsed_of (results final_2_2).
Proof.
  assert (Hs : start_pool cfg_2_2 world_after_preflight
               = (Returned pool_2_2, world_after_preflight))
    by (vm_compute; reflexivity).
  assert (Hr : run cfg_2_2 pool_2_2 sched_2_2 = Some final_2_2)
    by (vm_compute; reflexivity).
  split; [exact Hs|]. split; [exact Hr|].
  destruct (appended_results_are_populated cfg_2_2 world_after_preflight
              world_after_preflight pool_2_2 final_2_2 sched_2_2 Hs Hr)
    as (H1 & _ & H3 & _).
  split; [exact H1|exact H3].
Defined.

(** * Further properties *)

(** ** The streaming reader *)

Lemma content_count_cons (ev : stream_event) (s : stream) :
  content_count (ev :: s)
  = (if bears_content ev then 1 else 0) + content_count s.
Proof.
  unfold content_count. cbn [filter].
  destruct (bears_content ev); cbn [length]; lia.
Qed.

Lemma content_count_bounds (s : stream) :
  0 <= content_count s <= Z.of_nat (length s).
Proof.
  unfold content_count. pose proof (filter_length_le bears_content s). lia.
Qed.

(** The loop from any state of its two locals, up to a terminal fragment. *)
Lemma process_stream_from_terminal (pre rest : stream) (now : Q) (c : chunk)
      (ft : option Q) (k : Z) :
  forallb ongoing pre = true -> terminal c = true ->
  process_stream_from (pre ++ Fragment now c :: rest) ft k
  = ReaderReturned
      (match ft with
       | Some t => Some t
       | None => first_arrival (pre ++ [Fragment now c])
       end)
      (k + content_count (pre ++ [Fragment now c])).
Proof.
  intros Hpre Hc. revert ft k.
  induction pre as [|ev pre IH]; intros ft k.
  - cbn [app process_stream_from]. unfold terminal in Hc.
    rewrite content_count_cons. cbn [bears_content first_arrival].
    destruct (choices c) as [|c0 cs]; [discriminate|].
    destruct (finish_reason c0); [|discriminate].
    destruct ft, (content_truthy (delta_content c0)); f_equal;
      unfold content_count; simpl; lia.
  - cbn [forallb] in Hpre. apply andb_true_iff in Hpre as [Hev Hpre].
    destruct ev as [t0 c'|e|]; try discriminate.
    cbn [app process_stream_from]. unfold ongoing in Hev.
    rewrite content_count_cons. cbn [bears_content first_arrival].
    destruct (choices c') as [|c0 cs]; [discriminate|].
    destruct (finish_reason c0); [discriminate|].
    rewrite (IH Hpre).
    destruct ft, (content_truthy (delta_content c0)); f_equal; lia.
Qed.

(** X1.  Once a fragment with a finish reason arrives, after fragments
    without one, the reader returns and reads nothing of what follows: its
    answer is the arrival of the first fragment and the number of fragments
    with content up to and including the terminal one. *)
Theorem process_stream_stops_at_terminal
        (pre rest : stream) (now : Q) (c : chunk) :
  forallb ongoing pre = true -> terminal c = true ->
  process_stream (pre ++ Fragment now c :: rest)
  = ReaderReturned (first_arrival (pre ++ [Fragment now c]))
                   (content_count (pre ++ [Fragment now c])).
Proof.
  intros Hpre Hc. unfold process_stream.
  rewrite (process_stream_from_terminal pre rest now c None 0 Hpre Hc).
  reflexivity.
Qed.

Lemma process_stream_stops_at_terminal_witness :
  process_stream ([Fragment 11 (text_chunk "Hello")]
                    ++ Fragment 12 stop_chunk
                    :: [StreamRaises KeyboardInterrupt; DeadlineExpires])
  = ReaderReturned
      (first_arrival ([Fragment 11 (text_chunk "Hello")] ++ [Fragment 12 stop_chunk]))
      (content_count ([Fragment 11 (text_chunk "Hello")] ++ [Fragment 12 stop_chunk])).
Proof.
  apply (process_stream_stops_at_terminal
           [Fragment 11 (text_chunk "Hello")]
           [StreamRaises KeyboardInterrupt; DeadlineExpires] 12 stop_chunk);
    reflexivity.
Defined.

Lemma process_stream_from_count (s : stream) (ft t : option Q) (k n : Z) :
  process_stream_from s ft k = ReaderReturned t n ->
  k <= n <= k + content_count s.
Proof.
  revert ft k. induction s as [|ev s IH]; intros ft k; cbn [process_stream_from].
  - intros H. inversion H; subst. unfold content_count. simpl. lia.
  - pose proof (content_count_bounds s) as Hb.
    rewrite content_count_cons.
    destruct ev as [now c|e|]; try discriminate.
    cbn [bears_content]. destruct (choices c) as [|c0 cs]; [discriminate|].
    destruct (finish_reason c0).
    + intros H. inversion H; subst.
      destruct (content_truthy (delta_content c0)); lia.
    + intros H. apply IH in H.
      destruct (content_truthy (delta_content c0)); lia.
Qed.

(** X2.  A count the reader returns is never negative, never more than the
    number of fragments of the stream that carry content, and when it is
    positive the first-fragment timestamp is present: tokens are never
    reported without a time for the first one. *)
Theorem process_stream_count_bounds (s : stream) (t : option Q) (n : Z) :
  process_stream s = ReaderReturned t n ->
  0 <= n <= content_count s
  /\ n <= Z.of_nat (length s)
  /\ (0 < n -> exists now, t = Some now /\ first_arrival s = Some now).
Proof.
  intros H.
  pose proof (process_stream_from_count s None t 0 n H) as Hn.
  pose proof (content_count_bounds s) as Hb.
  split; [lia|]. split; [lia|].
  intros Hpos.
  rewrite (process_stream_first_arrival s t n H).
  destruct s as [|[now c|e|] s'].
  - unfold content_count in Hn. simpl in Hn. lia.
  - exists now. split; reflexivity.
  - discriminate.
  - discriminate.
Qed.

Lemma process_stream_count_bounds_witness :
  0 <= 2 <= content_count [Fragment 11 (text_chunk "Hello");
                           Fragment 12 (text_chunk " world");
                           Fragment 13 stop_chunk]
  /\ 2 <= Z.of_nat (length [Fragment 11 (text_chunk "Hello");
                            Fragment 12 (text_chunk " world");
                            Fragment 13 stop_chunk])
  /\ (0 < 2 ->
      exists now,
        Some 11%Q = Some now
        /\ first_arrival [Fragment 11 (text_chunk "Hello");
                          Fragment 12 (text_chunk " world");
                          Fragment 13 stop_chunk] = Some now).
Proof.
  apply (process_stream_count_bounds
           [Fragment 11 (text_chunk "Hello"); Fragment 12 (text_chunk " world");
            Fragment 13 stop_chunk] (Some 11%Q) 2).
  reflexivity.
Defined.

Lemma process_stream_from_cut (pre rest : stream) (ev : stream_event)
      (ft : option Q) (k : Z) :
  forallb ongoing pre = true ->
  match ev with
  | Fragment _ c => choices c = []
  | _ => True
  end ->
  process_stream_from (pre ++ ev :: rest) ft k
  = match ev with
    | Fragment _ _ => ReaderRaised IndexError
    | StreamRaises e => ReaderRaised e
    | DeadlineExpires => ReaderCancelled
    end.
Proof.
  intros Hpre Hev. revert ft k.
  induction pre as [|ev' pre IH]; intros ft k.
  - cbn [app process_stream_from].
    destruct ev as [now c|e|]; try reflexivity. rewrite Hev. reflexivity.
  - cbn [forallb] in Hpre. apply andb_true_iff in Hpre as [Hev' Hpre].
    destruct ev' as [t0 c'|e|]; try discriminate.
    cbn [app process_stream_from]. unfold ongoing in Hev'.
    destruct (choices c') as [|c0 cs]; [discriminate|].
    destruct (finish_reason c0); [discriminate|].
    apply (IH Hpre).
Qed.

(** X3.  A stream that is cut short gives no result, whatever was counted
    before the cut: after fragments without a finish reason, a chunk whose
    choices are empty, an exception of the transport that derives from
    [Exception] or the expiry of the deadline makes [make_request] return
    [None] and log one record: an error (IndexError for the chunk without
    choices) or the timeout warning. *)
Theorem cut_stream_gives_no_result
        (env : request_env) (m : string) (mx rt : Z) (w : world)
        (pre rest : stream) (ev : stream_event) :
  created env = inr (pre ++ ev :: rest) ->
  forallb ongoing pre = true ->
  match ev with
  | Fragment _ c => choices c = []
  | StreamRaises e => is_Exception e = true
  | DeadlineExpires => True
  end ->
  exists w',
    make_request env m mx rt w = (Returned None, w') /\
    log w'
    = log w ++ [match ev with
                | Fragment _ _ => LogRequestError IndexError
                | StreamRaises e =>
                    if is_TimeoutError e then LogTimedOut rt
                    else LogRequestError e
                | DeadlineExpires => LogTimedOut rt
                end].
Proof.
  intros Hc Hpre Hev.
  assert (Hs : process_stream (pre ++ ev :: rest)
               = match ev with
                 | Fragment _ _ => ReaderRaised IndexError
                 | StreamRaises e => ReaderRaised e
                 | DeadlineExpires => ReaderCancelled
                 end).
  { unfold process_stream. apply process_stream_from_cut; [exact Hpre|].
    destruct ev; [exact Hev|exact I|exact I]. }
  destruct ev as [now c|e|].
  - destruct (make_request_exception env m mx rt w IndexError) as (w' & E & Hl).
    { unfold exception_met. rewrite Hc, Hs. reflexivity. }
    exists w'. split; [exact E|exact Hl].
  - destruct (make_request_exception env m mx rt w e) as (w' & E & Hl).
    { unfold exception_met. rewrite Hc, Hs. reflexivity. }
    rewrite Hev in E, Hl. exists w'. split; [exact E|].
    rewrite Hl. destruct (is_TimeoutError e); reflexivity.
  - destruct (make_request_deadline env m mx rt w _ Hc Hs) as (w' & Hl & E).
    exists w'. split; [exact E|exact Hl].
Qed.

Lemma cut_stream_gives_no_result_witness :
  exists w',
    make_request env_malformed "m" 128 300 empty_world = (Returned None, w')
    /\ log w' = log empty_world ++ [LogRequestError IndexError].
Proof.
  apply (cut_stream_gives_no_result env_malformed "m" 128 300 empty_world
           [Fragment 11 (text_chunk "Hello")] [Fragment 13 stop_chunk]
           (Fragment 12 {| choices := [] |})); reflexivity.
Defined.

(** ** The request executor *)

(** X4.  Every call of [make_request] hands the client exactly one request,
    whatever comes of it (a tuple, [None] or a propagated exception): the
    given model and token cap, and the prompt of the corpus at the drawn
    position; it never sends a second one, and it adds at most one record to
    the log. *)
Theorem make_request_sends_one_request
        (env : request_env) (m : string) (mx rt : Z) (w : world) :
  exists c suffix,
    nth_error SAMPLE_PROMPTS (draw env mod length SAMPLE_PROMPTS) = Some c
    /\ issued (snd (make_request env m mx rt w))
       = issued w ++ [{| req_model := m; req_content := c;
                         req_max_completion_tokens := mx |}]
    /\ log (snd (make_request env m mx rt w)) = log w ++ suffix
    /\ (length suffix <= 1)%nat.
Proof.
  destruct (random_choice_prompts (draw env)) as [c Hr].
  assert (Hn : nth_error SAMPLE_PROMPTS (draw env mod length SAMPLE_PROMPTS) = Some c).
  { unfold random_choice in Hr.
    destruct (nth_error SAMPLE_PROMPTS (draw env mod length SAMPLE_PROMPTS));
      [inversion Hr; reflexivity|discriminate]. }
  exists c.
  cbv [make_request bind lift try_except client_create]. rewrite Hr.
  destruct (created env) as [e|s].
  - destruct e; cbv [is_TimeoutError is_Exception logging ret raise]; cbn [snd log issued];
      eexists; (split; [exact Hn|]); (split; [reflexivity|]);
      first [ split; [reflexivity|cbn; lia]
            | split; [symmetry; apply app_nil_r|cbn; lia] ].
  - destruct (process_stream s) as [t n|e|]; cbv [wait_for ret raise].
    + rewrite tokens_per_second_of_total. cbn [snd log issued].
      exists []. split; [exact Hn|]. split; [reflexivity|].
      split; [symmetry; apply app_nil_r|cbn; lia].
    + destruct e; cbv [is_TimeoutError is_Exception logging ret raise]; cbn [snd log issued];
        eexists; (split; [exact Hn|]); (split; [reflexivity|]);
        first [ split; [reflexivity|cbn; lia]
              | split; [symmetry; apply app_nil_r|cbn; lia] ].
    + cbv [is_TimeoutError logging ret]. cbn [snd log issued].
      eexists. split; [exact Hn|]. split; [reflexivity|].
      split; [reflexivity|cbn; lia].
Qed.

(** X5.  In a tuple [make_request] returns the token count is not negative,
    the elapsed time is the end reading minus the start reading, and the
    throughput is never negative, even when the clock ran backwards: it is 0
    when the elapsed time is not positive, and otherwise the quotient of a
    count that is not negative by a positive time. *)
Theorem populated_result_consistent
        (env : request_env) (m : string) (mx rt : Z) (w w' : world)
        (n : option Z) (el tps ttft : option Q) :
  make_request env m mx rt w = (Returned (Some (n, el, tps, ttft)), w') ->
  exists k q,
    n = Some k /\ tps = Some q
    /\ el = Some (clock_end env - clock_start env)%Q
    /\ 0 <= k
    /\ (0 <= q)%Q
    /\ ((clock_end env - clock_start env <= 0)%Q -> q = 0%Q)
    /\ ((0 < clock_end env - clock_start env)%Q ->
        q = (inject_Z k / (clock_end env - clock_start env))%Q).
Proof.
  intros H.
  destruct (request_cases env)
    as [(s & t & k & Hc & Hs & _)|[(s & Hc & Hs & _)|(e & He)]].
  - destruct (make_request_success env m mx rt w s t k Hc Hs) as (w1 & _ & E).
    rewrite E in H. inversion H; subst. clear H.
    pose proof (process_stream_from_count s None t 0 k Hs) as Hk.
    set (e := (clock_end env - clock_start env)%Q).
    exists k. eexists. repeat split; try reflexivity.
    + lia.
    + destruct (Qpositive e) eqn:Hp; [|apply Qle_refl].
      apply Qpositive_true in Hp. unfold Qdiv.
      apply Qmult_le_0_compat.
      * change 0%Q with (inject_Z 0). rewrite <- Zle_Qle. lia.
      * apply Qinv_le_0_compat. apply Qlt_le_weak. exact Hp.
    + intros Hle. apply Qpositive_false in Hle. rewrite Hle. reflexivity.
    + intros Hlt. apply Qpositive_true in Hlt. rewrite Hlt. reflexivity.
  - destruct (make_request_deadline env m mx rt w s Hc Hs) as (w1 & _ & E).
    rewrite E in H. discriminate.
  - destruct (make_request_exception env m mx rt w e He) as (w1 & E & _).
    rewrite E in H. destruct (is_Exception e); discriminate.
Qed.

Lemma populated_result_consistent_witness :
  exists k q,
    Some 2 = Some k /\ Some (inject_Z 2 / (14 - 10))%Q = Some q
    /\ Some (14 - 10)%Q = Some (clock_end env_ok - clock_start env_ok)%Q
    /\ 0 <= k
    /\ (0 <= q)%Q
    /\ ((clock_end env_ok - clock_start env_ok <= 0)%Q -> q = 0%Q)
    /\ ((0 < clock_end env_ok - clock_start env_ok)%Q ->
        q = (inject_Z k / (clock_end env_ok - clock_start env_ok))%Q).
Proof.
  apply (populated_result_consistent env_ok "m" 128 300 empty_world
           (snd (make_request env_ok "m" 128 300 empty_world))
           (Some 2) (Some (14 - 10)%Q) (Some (inject_Z 2 / (14 - 10))%Q)
           (Some (11 - 10)%Q)).
  reflexivity.
Defined.

(** ** The worker pool *)

Lemma tally_le (f g : wstate -> nat) (ws : list wstate) :
  (forall st, f st <= g st)%nat -> (tally f ws <= tally g ws)%nat.
Proof.
  intros H. unfold tally. induction ws as [|st ws IH]; simpl; [lia|].
  specialize (H st). lia.
Qed.

(** X6.  In every pool [main] can reach the permits are conserved: the free
    permits and the workers holding one add up to the concurrency; so at no
    moment more requests are in flight than the concurrency allows. *)
Theorem at_most_C_requests_in_flight
        (cfg : config) (w w' : world) (s0 s : pool) (sched : list action) :
  start_pool cfg w = (Returned s0, w') ->
  run cfg s0 sched = Some s ->
  (semaphore s + tally holding (workers s))%nat = Z.to_nat (concurrency cfg)
  /\ (tally in_request (workers s) <= Z.to_nat (concurrency cfg))%nat
  /\ length (workers s) = Z.to_nat (concurrency cfg).
Proof.
  intros Hs Hr.
  destruct (start_pool_returned _ _ _ _ Hs) as (_ & _ & _ & _ & _ & _ & I0).
  destruct (run_inv _ _ _ _ _ _ I0 Hr) as [I1 I2 _ _ _ _ _].
  split; [exact I2|]. split; [|exact I1].
  assert (H : (tally in_request (workers s) <= tally holding (workers s))%nat).
  { apply tally_le. intros []; simpl; lia. }
  lia.
Qed.

Lemma at_most_C_requests_in_flight_witness :
  (semaphore final_2_2 + tally holding (workers final_2_2))%nat
  = Z.to_nat (concurrency cfg_2_2)
  /\ (tally in_request (workers final_2_2) <= Z.to_nat (concurrency cfg_2_2))%nat
  /\ length (workers final_2_2) = Z.to_nat (concurrency cfg_2_2).
Proof.
  assert (Hs : start_pool cfg_2_2 world_after_preflight
               = (Returned pool_2_2, world_after_preflight))
    by (vm_compute; reflexivity).
  assert (Hr : run cfg_2_2 pool_2_2 sched_2_2 = Some final_2_2)
    by (vm_compute; reflexivity).
  exact (at_most_C_requests_in_flight cfg_2_2 world_after_preflight
           world_after_preflight pool_2_2 final_2_2 sched_2_2 Hs Hr).
Defined.

(** The tasks handed out are a prefix of the tasks, and all of them once a
    sentinel has followed. *)
Lemma delivered_prefix (tasks : list nat) (c : nat)
      (front q : list (option nat)) :
  front ++ q = map Some tasks ++ repeat None c ->
  not_None front = firstn (length (not_None front)) tasks
  /\ (existsb is_sentinel front = true -> not_None front = tasks).
Proof.
  revert front. induction tasks as [|a tasks IH]; intros front H; simpl in H.
  - assert (Hall : forall x, In x front -> x = None).
    { intros x Hx. apply (repeat_spec c None). rewrite <- H.
      apply in_or_app. left. exact Hx. }
    assert (Hn : not_None front = []).
    { clear H. induction front as [|x front IHf]; [reflexivity|].
      rewrite (Hall x) by (left; reflexivity). simpl.
      apply IHf. intros y Hy. apply Hall. right. exact Hy. }
    rewrite Hn. split; reflexivity.
  - destruct front as [|x front]; simpl in H.
    + split; [reflexivity|discriminate].
    + inversion H; subst. destruct (IH front H2) as [P1 P2].
      cbn [not_None length firstn existsb is_sentinel orb].
      split; [rewrite <- P1; reflexivity|].
      intros Hex. rewrite (P2 Hex). reflexivity.
Qed.

Lemma firstn_seq (k a n : nat) : firstn k (seq a n) = seq a (Nat.min k n).
Proof.
  revert a n. induction k as [|k IH]; intros a [|n]; simpl; try reflexivity.
  rewrite IH. reflexivity.
Qed.

(** X7.  Tasks are handed out in the order of their indices, without gaps:
    at every moment the indices handed out are 0, 1, .., k-1 for some
    k <= N; and no sentinel is handed out before the last task: once a
    worker has received a sentinel, all N indices have been handed out. *)
Theorem tasks_start_in_order
        (cfg : config) (w w' : world) (s0 s : pool) (sched : list action) :
  start_pool cfg w = (Returned s0, w') ->
  run cfg s0 sched = Some s ->
  tasks_delivered s = seq 0 (length (tasks_delivered s))
  /\ (length (tasks_delivered s) <= Z.to_nat (num_requests cfg))%nat
  /\ (sentinel_takers s <> [] ->
      tasks_delivered s = seq 0 (Z.to_nat (num_requests cfg))).
Proof.
  intros Hs Hr.
  destruct (start_pool_returned _ _ _ _ Hs) as (_ & _ & _ & _ & _ & _ & I0).
  destruct (run_inv _ _ _ _ _ _ I0 Hr) as [_ _ _ I4 _ _ _].
  destruct (delivered_prefix _ _ _ _ I4) as [P1 P2].
  fold (tasks_delivered s) in P1, P2.
  rewrite firstn_seq in P1.
  assert (Hlen : length (tasks_delivered s)
                 = Nat.min (length (tasks_delivered s)) (Z.to_nat (num_requests cfg))).
  { rewrite P1 at 1. apply length_seq. }
  split; [rewrite P1 at 1; rewrite <- Hlen; reflexivity|].
  split; [lia|].
  intros Hne. apply P2. unfold sentinel_takers in Hne.
  destruct (filter (fun d => is_sentinel (snd d)) (delivered s))
    as [|[v item] l] eqn:Ef; [exfalso; apply Hne; reflexivity|].
  assert (Hin : In (v, item) (filter (fun d => is_sentinel (snd d)) (delivered s)))
    by (rewrite Ef; left; reflexivity).
  apply filter_In in Hin as [Hin Hsent].
  apply existsb_exists. exists item. split; [|exact Hsent].
  apply in_map_iff. exists (v, item). auto.
Qed.

Lemma tasks_start_in_order_witness :
  tasks_delivered final_2_2 = seq 0 (length (tasks_delivered final_2_2))
  /\ (length (tasks_delivered final_2_2) <= Z.to_nat (num_requests cfg_2_2))%nat
  /\ (sentinel_takers final_2_2 <> [] ->
      tasks_delivered final_2_2 = seq 0 (Z.to_nat (num_requests cfg_2_2))).
Proof.
  assert (Hs : start_pool cfg_2_2 world_after_preflight
               = (Returned pool_2_2, world_after_preflight))
    by (vm_compute; reflexivity).
  assert (Hr : run cfg_2_2 pool_2_2 sched_2_2 = Some final_2_2)
    by (vm_compute; reflexivity).
  exact (tasks_start_in_order cfg_2_2 world_after_preflight
           world_after_preflight pool_2_2 final_2_2 sched_2_2 Hs Hr).
Defined.

(** The pool after a request has come back with a value. *)
Lemma after_request_returned (n c : nat) (cfg : config) (s : pool)
      (v i : nat) (env : request_env) (res : option result) (o : world) :
  pool_inv n c s ->
  nth_error (workers s) v = Some (WReq i) ->
  make_request env (model cfg) (max_completion_tokens cfg) (request_timeout cfg)
               (outside s) = (Returned res, o) ->
  exists u,
    unfinished_tasks s = S u /\
    after_request cfg v i env s
    = {| queue := queue s; unfinished_tasks := u;
         semaphore := S (semaphore s);
         workers := update_nth v WLoop (workers s);
         results := match res with
                    | Some r => results s ++ [r]
                    | None => results s
                    end;
         delivered := delivered s;
         outside :=
           {| log := (match res with
                      | Some _ => log o
                      | None => log o ++ [LogFailed i]
                      end) ++ [LogFinished i];
              issued := issued o |} |}.
Proof.
  intros [_ _ I3 _ _ _ _] Hw Hm.
  pose proof (tally_member in_request _ _ _ Hw) as Hmem. cbn in Hmem.
  destruct (unfinished_tasks s) as [|u] eqn:Eu; [lia|].
  exists u. split; [reflexivity|].
  unfold after_request. rewrite Hm. unfold task_done.
  destruct res as [r|]; cbn; rewrite Eu; reflexivity.
Qed.

(** The pool after a request has ended in an exception. *)
Lemma after_request_raised (cfg : config) (s : pool) (v i : nat)
      (env : request_env) (e : exn) (o : world) :
  make_request env (model cfg) (max_completion_tokens cfg) (request_timeout cfg)
               (outside s) = (Raised e, o) ->
  after_request cfg v i env s
  = {| queue := queue s; unfinished_tasks := unfinished_tasks s;
       semaphore := S (semaphore s);
       workers := update_nth v (WCrashed e) (workers s);
       results := results s; delivered := delivered s; outside := o |}.
Proof.
  intros Hm. unfold after_request. rewrite Hm. reflexivity.
Qed.

(** X8.  A request that times out or fails with an exception derived from
    [Exception] does not stop its worker: when the answer arrives the worker
    marks the task done, gives its permit back, is at the top of its loop
    again and can take the next item; only a populated tuple is appended to
    the results, and only an empty answer is logged as failed. *)
Theorem worker_survives_failed_request
        (cfg : config) (w w' : world) (s0 s : pool) (sched : list action)
        (v i : nat) (env : request_env) :
  start_pool cfg w = (Returned s0, w') ->
  run cfg s0 sched = Some s ->
  nth_error (workers s) v = Some (WReq i) ->
  benign env = true ->
  exists s' res,
    step cfg s (Reply v env) = Some s'
    /\ request_result cfg env = Returned res
    /\ nth_error (workers s') v = Some WLoop
    /\ semaphore s' = S (semaphore s)
    /\ S (unfinished_tasks s') = unfinished_tasks s
    /\ queue s' = queue s
    /\ results s' = match res with
                    | Some r => results s ++ [r]
                    | None => results s
                    end
    /\ failed_logged (log (outside s'))
       = (failed_logged (log (outside s))
          + match res with Some _ => 0 | None => 1 end)%nat
    /\ exists s'', step cfg s' (Next v) = Some s''.
Proof.
  intros Hs Hr Hw Hb.
  destruct (start_pool_returned _ _ _ _ Hs) as (_ & _ & _ & _ & _ & _ & I0).
  pose proof (run_inv _ _ _ _ _ _ I0 Hr) as I.
  destruct (make_request_benign env (model cfg) (max_completion_tokens cfg)
                                (request_timeout cfg) (outside s) Hb)
    as (res & o & Hm).
  destruct (after_request_returned _ _ cfg s v i env res o I Hw Hm) as (u & Hu & E).
  exists (after_request cfg v i env s), res.
  split; [simpl; rewrite Hw; reflexivity|].
  split.
  { rewrite <- (request_result_at cfg env (outside s)), Hm. reflexivity. }
  pose proof (make_request_failed_logged env (model cfg) (max_completion_tokens cfg)
                (request_timeout cfg) (outside s)) as Hfl.
  rewrite Hm in Hfl. cbn [snd] in Hfl.
  rewrite E. cbn [workers semaphore unfinished_tasks queue results outside log].
  split; [eapply nth_error_update_same; exact Hw|].
  split; [reflexivity|]. split; [symmetry; exact Hu|]. split; [reflexivity|].
  split; [reflexivity|].
  split.
  { destruct res; rewrite ?failed_logged_app; cbn [failed_logged]; lia. }
  cbn [step workers semaphore queue acquire].
  rewrite (nth_error_update_same _ _ _ _ Hw).
  destruct (queue s); eexists; reflexivity.
Qed.

Lemma worker_survives_failed_request_witness :
  exists s' res,
    step cfg_2_2
         (match run cfg_2_2 pool_2_2 [Next 0%nat] with
          | Some s => s
          | None => pool_2_2
          end) (Reply 0 env_timeout) = Some s'
    /\ request_result cfg_2_2 env_timeout = Returned res
    /\ nth_error (workers s') 0 = Some WLoop.
Proof.
  assert (Hs : start_pool cfg_2_2 world_after_preflight
               = (Returned pool_2_2, world_after_preflight))
    by (vm_compute; reflexivity).
  assert (Hr : run cfg_2_2 pool_2_2 [Next 0%nat]
               = Some (match run cfg_2_2 pool_2_2 [Next 0%nat] with
                       | Some s => s
                       | None => pool_2_2
                       end))
    by (vm_compute; reflexivity).
  assert (Hw : nth_error (workers (match run cfg_2_2 pool_2_2 [Next 0%nat] with
                                   | Some s => s
                                   | None => pool_2_2
                                   end)) 0 = Some (WReq 0))
    by (vm_compute; reflexivity).
  assert (Hb : benign env_timeout = true) by (vm_compute; reflexivity).
  destruct (worker_survives_failed_request cfg_2_2 world_after_preflight
              world_after_preflight pool_2_2 _ [Next 0%nat] 0%nat 0%nat
              env_timeout Hs Hr Hw Hb)
    as (s' & res & H1 & H2 & H3 & _).
  exists s', res. auto.
Defined.

(** *** Requests sent and records logged along a run *)

Lemma started_logged_app (l1 l2 : list log_record) :
  started_logged (l1 ++ l2) = (started_logged l1 + started_logged l2)%nat.
Proof.
  induction l1 as [|r l1 IH]; simpl; [reflexivity|].
  destruct r; simpl; rewrite IH; reflexivity.
Qed.

Lemma finished_logged_app (l1 l2 : list log_record) :
  finished_logged (l1 ++ l2) = (finished_logged l1 + finished_logged l2)%nat.
Proof.
  induction l1 as [|r l1 IH]; simpl; [reflexivity|].
  destruct r; simpl; rewrite IH; reflexivity.
Qed.

(** What the executor leaves in the log is its own. *)
Lemma make_request_log_suffix env m mx rt w :
  exists suffix,
    log (snd (make_request env m mx rt w)) = log w ++ suffix
    /\ started_logged suffix = O /\ finished_logged suffix = O.
Proof.
  destruct (request_cases env)
    as [(s & t & n & Hc & Hs & _)|[(s & Hc & Hs & _)|(e & He)]].
  - destruct (make_request_success env m mx rt w s t n Hc Hs) as (w' & Hl & ->).
    exists []. cbn [snd]. rewrite Hl, app_nil_r. auto.
  - destruct (make_request_deadline env m mx rt w s Hc Hs) as (w' & Hl & ->).
    exists [LogTimedOut rt]. cbn [snd]. rewrite Hl. auto.
  - destruct (make_request_exception env m mx rt w e He) as (w' & -> & Hl).
    cbn [snd]. rewrite Hl.
    destruct (is_TimeoutError e); [exists [LogTimedOut rt]; auto|].
    destruct (is_Exception e); [exists [LogRequestError e]; auto|].
    exists []. rewrite app_nil_r. auto.
Qed.

Lemma make_request_issued_length env m mx rt w :
  length (issued (snd (make_request env m mx rt w))) = S (length (issued w)).
Proof.
  destruct (make_request_issued env m mx rt w) as (c & _ & ->).
  rewrite length_app. simpl. lia.
Qed.

Lemma request_result_not_benign (cfg : config) (env : request_env) :
  benign env = false -> exists e, request_result cfg env = Raised e.
Proof.
  unfold benign. intros Hb.
  destruct (exception_met env) as [e|] eqn:He; [|discriminate].
  destruct (make_request_exception env (model cfg) (max_completion_tokens cfg)
                                   (request_timeout cfg) empty_world e He)
    as (w' & E & _).
  unfold request_result. rewrite E, Hb. exists e. reflexivity.
Qed.

(** The counters a step moves. *)
Lemma step_counters (n c : nat) (cfg : config) (s s' : pool) (a : action) :
  pool_inv n c s -> step cfg s a = Some s' ->
  (tally crashed (workers s) <= tally crashed (workers s'))%nat
  /\ (benign_action a = false ->
      (tally crashed (workers s) < tally crashed (workers s'))%nat)
  /\ length (issued (outside s'))
     = (length (issued (outside s)) + replies [a])%nat
  /\ (started_logged (log (outside s')) + length (tasks_delivered s)
      = started_logged (log (outside s)) + length (tasks_delivered s'))%nat
  /\ (finished_logged (log (outside s')) + length (results s)
      + failed_logged (log (outside s))
      = finished_logged (log (outside s)) + length (results s')
        + failed_logged (log (outside s')))%nat
  /\ (replies [a] + tally in_request (workers s') + length (tasks_delivered s)
      = tally in_request (workers s) + length (tasks_delivered s'))%nat.
Proof.
  intros I H.
  destruct (step_cases cfg s s' a H)
    as [(w & k & -> & Hw & Hk & Hq & ->)
       |[(w & k & item & rest & -> & Hw & Hk & Hq & ->)
        |[(w & item & rest & -> & Hw & Hq & ->)
         |(w & i & env & -> & Hw & ->)]]].
  - destruct (acquire_effect s w k Hw Hk) as (_ & E2 & E3 & E4 & E5 & E6).
    cbn [replies benign_action]. cbv zeta in *.
    rewrite E2, E3, E4, E5, E6.
    repeat split; try lia; try discriminate.
  - pose proof (inv_acquire n c s w k I Hw Hk) as I'.
    destruct (acquire_effect s w k Hw Hk) as (_ & E2 & E3 & E4 & E5 & E6).
    set (s1 := set_worker w WGet (acquire s)) in *.
    assert (Hw' : nth_error (workers s1) w = Some WGet)
      by (cbn; eapply nth_error_update_same; eauto).
    assert (Hq' : queue s1 = item :: rest) by (cbn; exact Hq).
    cbn [replies benign_action].
    destruct item as [i|].
    + destruct (get_task_effect s1 w i rest Hw' Hq') as (_ & F2 & F3 & F4 & F5 & F6).
      cbv zeta in *.
      assert (Fi : issued (outside (got w (Some i) (pop w (Some i) rest s1)))
                   = issued (outside s1)) by reflexivity.
      rewrite F2, F3, F4, F5, F6, Fi, E2, E3, E4, E5, E6.
      rewrite started_logged_app, finished_logged_app, failed_logged_app, length_app.
      cbn [started_logged finished_logged failed_logged length].
      repeat split; try lia; try discriminate.
    + destruct (get_sentinel_effect n c s1 w rest I' Hw' Hq')
        as (_ & F2 & F3 & F4 & F5 & F6).
      cbv zeta in *.
      rewrite F2, F3, F4, F5, F6, E2, E3, E4, E5, E6.
      repeat split; try lia; try discriminate.
  - cbn [replies benign_action].
    destruct item as [i|].
    + destruct (get_task_effect s w i rest Hw Hq) as (_ & F2 & F3 & F4 & F5 & F6).
      cbv zeta in *.
      assert (Fi : issued (outside (got w (Some i) (pop w (Some i) rest s)))
                   = issued (outside s)) by reflexivity.
      rewrite F2, F3, F4, F5, F6, Fi.
      rewrite started_logged_app, finished_logged_app, failed_logged_app, length_app.
      cbn [started_logged finished_logged failed_logged length].
      repeat split; try lia; try discriminate.
    + destruct (get_sentinel_effect n c s w rest I Hw Hq)
        as (_ & F2 & F3 & F4 & F5 & F6).
      cbv zeta in *.
      rewrite F2, F3, F4, F5, F6.
      repeat split; try lia; try discriminate.
  - cbn [replies benign_action].
    destruct (reply_effect n c cfg s w i env I Hw) as (_ & F2 & F3 & _).
    cbv zeta in *.
    pose proof (make_request_issued_length env (model cfg) (max_completion_tokens cfg)
                  (request_timeout cfg) (outside s)) as Hi.
    destruct (make_request_log_suffix env (model cfg) (max_completion_tokens cfg)
                (request_timeout cfg) (outside s)) as (suffix & Hl & Hs1 & Hs2).
    pose proof (make_request_failed_logged env (model cfg) (max_completion_tokens cfg)
                  (request_timeout cfg) (outside s)) as Hf.
    pose proof (request_result_at cfg env (outside s)) as Hrr.
    destruct (make_request env (model cfg) (max_completion_tokens cfg)
                           (request_timeout cfg) (outside s)) as [[res|e] o] eqn:Hm.
    + destruct (after_request_returned n c cfg s w i env res o I Hw Hm)
        as (u & Hu & E).
      cbn [snd fst] in *. rewrite F2. rewrite E in F3 |- *.
      cbn [workers results outside log issued] in *.
      pose proof (tally_update crashed _ _ _ WLoop Hw) as Hcr. cbn [crashed] in Hcr.
      rewrite Hcr.
      assert (Hb : benign env = true).
      { destruct (benign env) eqn:Eb; [reflexivity|].
        destruct (request_result_not_benign cfg env Eb) as (e & He).
        rewrite He in Hrr. discriminate. }
      rewrite Hb.
      destruct res as [r|];
        rewrite ?started_logged_app, ?finished_logged_app, ?failed_logged_app,
          ?length_app, Hl, ?started_logged_app, ?finished_logged_app,
          ?failed_logged_app in *;
        cbn [started_logged finished_logged failed_logged length] in *;
        repeat split; try lia; try discriminate.
    + cbn [snd fst] in *. rewrite F2.
      rewrite (after_request_raised cfg s w i env e o Hm) in F3 |- *.
      cbn [workers results outside log issued] in *.
      pose proof (tally_update crashed _ _ _ (WCrashed e) Hw) as Hcr.
      pose proof (tally_member crashed _ _ _ Hw) as Hmem.
      cbn [crashed] in Hcr, Hmem. rewrite Hcr.
      rewrite Hl, ?started_logged_app, ?finished_logged_app, ?failed_logged_app in *.
      repeat split; try lia.
Qed.

Lemma run_counters (n c : nat) (cfg : config) (sched : list action) (s s' : pool) :
  pool_inv n c s -> run cfg s sched = Some s' ->
  (tally crashed (workers s) <= tally crashed (workers s'))%nat
  /\ length (issued (outside s'))
     = (length (issued (outside s)) + replies sched)%nat
  /\ (started_logged (log (outside s')) + length (tasks_delivered s)
      = started_logged (log (outside s)) + length (tasks_delivered s'))%nat
  /\ (finished_logged (log (outside s')) + length (results s)
      + failed_logged (log (outside s))
      = finished_logged (log (outside s)) + length (results s')
        + failed_logged (log (outside s')))%nat
  /\ (replies sched + tally in_request (workers s') + length (tasks_delivered s)
      = tally in_request (workers s) + length (tasks_delivered s'))%nat.
Proof.
  revert s. induction sched as [|a sched IH]; intros s I; simpl.
  - intros H. inversion H; subst. repeat split; lia.
  - destruct (step cfg s a) as [s1|] eqn:Hs; [|discriminate].
    intros H.
    destruct (step_counters _ _ _ _ _ _ I Hs) as (A1 & _ & A3 & A4 & A5 & A6).
    destruct (IH s1 (step_inv _ _ _ _ _ _ I Hs) H) as (B1 & B3 & B4 & B5 & B6).
    assert (Hr : replies (a :: sched) = (replies [a] + replies sched)%nat)
      by (destruct a; reflexivity).
    change (match a with
            | Next _ => replies sched
            | Reply _ _ => S (replies sched)
            end) with (replies (a :: sched)).
    rewrite Hr. repeat split; lia.
Qed.

(** X9.  A request that ends in [asyncio.CancelledError] ends the worker
    that made it and, with it, the run: the exception passes both [except]
    clauses, the task is never marked done, so however the other workers go
    on the pool is never drained, [queue.join()] never returns, and [main]
    returns no report. *)
Theorem cancelled_request_blocks_the_report
        (cfg : config) (w w' : world) (s0 s : pool)
        (sched1 sched2 : list action) (v : nat) (env : request_env) :
  start_pool cfg w = (Returned s0, w') ->
  run cfg s0 (sched1 ++ Reply v env :: sched2) = Some s ->
  exception_met env = Some CancelledError ->
  (0 < tally crashed (workers s))%nat
  /\ (0 < unfinished_tasks s)%nat
  /\ drained s = false
  /\ forall pre t0 t1 w1,
      preflight_check pre (model cfg) w1 = (Returned true, w) ->
      main cfg pre (sched1 ++ Reply v env :: sched2) t0 t1 w1
      = (Returned (Waiting s), outside s).
Proof.
  intros Hs Hr He.
  assert (Hb : benign env = false) by (unfold benign; rewrite He; reflexivity).
  destruct (start_pool_returned _ _ _ _ Hs) as (-> & _ & _ & _ & _ & _ & I0).
  rewrite run_app in Hr.
  destruct (run cfg s0 sched1) as [s1|] eqn:H1; [|discriminate].
  cbn [run] in Hr.
  destruct (step cfg s1 (Reply v env)) as [s2|] eqn:H2; [|discriminate].
  pose proof (run_inv _ _ _ _ _ _ I0 H1) as I1.
  pose proof (step_inv _ _ _ _ _ _ I1 H2) as I2.
  pose proof (run_inv _ _ _ _ _ _ I2 Hr) as I.
  destruct (step_counters _ _ _ _ _ _ I1 H2) as (_ & A2 & _).
  specialize (A2 Hb).
  destruct (run_counters _ _ _ _ _ _ I2 Hr) as (B1 & _).
  assert (Hcr : (0 < tally crashed (workers s))%nat) by lia.
  assert (Hun : (0 < unfinished_tasks s)%nat).
  { rewrite (inv_unfinished _ _ _ I). lia. }
  assert (Hd : drained s = false).
  { unfold drained. destruct (unfinished_tasks s); [lia|reflexivity]. }
  repeat split; try assumption.
  intros pre t0 t1 w1 Hp.
  rewrite main_unfold. cbv zeta. rewrite Hp. cbn [fst snd].
  rewrite Hs, run_app, H1. cbn [run]. rewrite H2, Hr, Hd. reflexivity.
Qed.

Lemma cancelled_request_blocks_the_report_witness :
  run cfg_2_2 pool_2_2 sched_crash = Some final_crash
  /\ exception_met env_cancelled = Some CancelledError
  /\ (0 < unfinished_tasks final_crash)%nat
  /\ drained final_crash = false
  /\ main cfg_2_2 env_ok sched_crash 100 110 empty_world
     = (Returned (Waiting final_crash), outside final_crash).
Proof.
  assert (Hs : start_pool cfg_2_2 world_after_preflight
               = (Returned pool_2_2, world_after_preflight))
    by (vm_compute; reflexivity).
  assert (Hr : run cfg_2_2 pool_2_2
                   ([Next 0; Next 1]%nat
                      ++ Reply 0 env_cancelled :: [Reply 1 env_ok; Next 1%nat])
               = Some final_crash)
    by (vm_compute; reflexivity).
  assert (He : exception_met env_cancelled = Some CancelledError)
    by (vm_compute; reflexivity).
  assert (Hp : preflight_check env_ok (model cfg_2_2) empty_world
               = (Returned true, world_after_preflight))
    by (vm_compute; reflexivity).
  destruct (cancelled_request_blocks_the_report cfg_2_2 world_after_preflight
              world_after_preflight pool_2_2 final_crash
              [Next 0; Next 1]%nat [Reply 1 env_ok; Next 1%nat] 0%nat
              env_cancelled Hs Hr He)
    as (_ & H2 & H3 & H4).
  split; [exact Hr|]. split; [exact He|]. split; [exact H2|].
  split; [exact H3|]. exact (H4 env_ok 100%Q 110%Q empty_world Hp).
Defined.

(** X10.  A run that ends with a report has sent exactly N + 1 requests to
    the client, the preflight's and one for each task, never a second one
    for a task that failed; and its log holds exactly N "Starting request"
    and N "Finished request" records more than before. *)
Theorem complete_run_sends_one_request_per_task
        (cfg : config) (pre : request_env) (sched : list action) (t0 t1 : Q)
        (w w' : world) (r : report) :
  main cfg pre sched t0 t1 w = (Returned (GaveReport r), w') ->
  replies sched = Z.to_nat (num_requests cfg)
  /\ length (issued w')
     = (length (issued w) + 1 + Z.to_nat (num_requests cfg))%nat
  /\ started_logged (log w')
     = (started_logged (log w) + Z.to_nat (num_requests cfg))%nat
  /\ finished_logged (log w')
     = (finished_logged (log w) + Z.to_nat (num_requests cfg))%nat.
Proof.
  intros Hm.
  destruct (main_report_inv _ _ _ _ _ _ _ _ Hm) as (s0 & s & Es & Hr & Hd & _ & ->).
  destruct (start_pool_returned _ _ _ _ Es) as (_ & Hq & Hw & Hres & Hdel & Hout & I0).
  pose proof (run_inv _ _ _ _ _ _ I0 Hr) as I.
  destruct (run_later _ _ _ _ _ _ I0 Hr) as [_ _ _ L4 L5 _ _].
  destruct (run_counters _ _ _ _ _ _ I0 Hr) as (_ & C2 & C3 & C4 & C5).
  destruct (drained_pool _ _ _ I Hd) as (_ & _ & D3 & _ & D5 & D6 & _).
  unfold accounted in L4, L5.
  assert (T0 : length (tasks_delivered s0) = O)
    by (unfold tasks_delivered; rewrite Hdel; reflexivity).
  assert (T1 : length (tasks_delivered s) = Z.to_nat (num_requests cfg))
    by (rewrite D3; apply length_seq).
  assert (R0 : length (results s0) = O) by (rewrite Hres; reflexivity).
  assert (Q0 : tally in_request (workers s0) = O)
    by (rewrite Hw, tally_repeat; cbn; lia).
  assert (K0 : tally crashed (workers s0) = O)
    by (rewrite Hw, tally_repeat; cbn; lia).
  assert (Hi : length (issued (outside s0)) = S (length (issued w))).
  { rewrite Hout, preflight_check_unfold. cbn [snd].
    apply make_request_issued_length. }
  destruct (make_request_log_suffix pre (model cfg) 16 5 w) as (suffix & Hl & S1 & S2).
  assert (Hst : started_logged (log (outside s0)) = started_logged (log w)).
  { rewrite Hout, preflight_check_unfold. cbn [snd].
    rewrite Hl, started_logged_app. lia. }
  assert (Hfi : finished_logged (log (outside s0)) = finished_logged (log w)).
  { rewrite Hout, preflight_check_unfold. cbn [snd].
    rewrite Hl, finished_logged_app. lia. }
  repeat split; lia.
Qed.

Lemma complete_run_sends_one_request_per_task_witness :
  exists r w',
    main cfg_2_2 env_ok sched_2_2 100 110 empty_world
    = (Returned (GaveReport r), w')
    /\ length (issued w') = 3%nat
    /\ started_logged (log w') = 2%nat
    /\ finished_logged (log w') = 2%nat.
Proof.
  assert (Hm : exists r w',
             main cfg_2_2 env_ok sched_2_2 100 110 empty_world
             = (Returned (GaveReport r), w')).
  { eexists. eexists. vm_compute. reflexivity. }
  destruct Hm as (r & w' & Hm).
  exists r, w'. split; [exact Hm|].
  destruct (complete_run_sends_one_request_per_task cfg_2_2 env_ok sched_2_2
              100 110 empty_world w' r Hm) as (_ & H2 & H3 & H4).
  split; [exact H2|]. split; [exact H3|exact H4].
Defined.

(** X11.  A negative concurrency is not refused before the preflight check:
    the preflight request is sent, and when it succeeds [main] raises the
    ValueError of [asyncio.Semaphore], builds no queue and returns no
    report. *)
Theorem negative_concurrency_raises
        (cfg : config) (pre : request_env) (sched : list action) (t0 t1 : Q)
        (w : world) :
  concurrency cfg < 0 ->
  fst (preflight_check pre (model cfg) w) = Returned true ->
  exists w',
    main cfg pre sched t0 t1 w = (Raised ValueError, w')
    /\ length (issued w') = S (length (issued w))
    /\ failed_logged (log w') = failed_logged (log w)
    /\ started_logged (log w') = started_logged (log w).
Proof.
  intros Hc Hp.
  destruct (start_pool_spec cfg (snd (preflight_check pre (model cfg) w)))
    as [Hneg _].
  exists (snd (preflight_check pre (model cfg) w)).
  rewrite main_unfold. cbv zeta. rewrite Hp, (Hneg Hc).
  split; [reflexivity|].
  rewrite preflight_check_unfold. cbn [snd].
  split; [apply make_request_issued_length|].
  split; [apply make_request_failed_logged|].
  destruct (make_request_log_suffix pre (model cfg) 16 5 w) as (suffix & Hl & S1 & _).
  rewrite Hl, started_logged_app. lia.
Qed.

Lemma negative_concurrency_raises_witness :
  exists w',
    main cfg_negative env_ok sched_2_2 100 110 empty_world = (Raised ValueError, w')
    /\ length (issued w') = S (length (issued empty_world))
    /\ failed_logged (log w') = failed_logged (log empty_world)
    /\ started_logged (log w') = started_logged (log empty_world).
Proof.
  apply (negative_concurrency_raises cfg_negative env_ok sched_2_2 100 110
           empty_world).
  - vm_compute. reflexivity.
  - vm_compute. reflexivity.
Defined.

(** ** The report *)

(** X12.  When every request of a run fails, [main] still returns a
    report, and it holds no number made up from nothing: no successful
    request, no token, zero requests per second, and for each of the three
    metrics an average of 0 and no percentile at all. *)
Theorem report_when_every_request_fails
        (cfg : config) (pre : request_env) (sched : list action) (t0 t1 : Q)
        (w w' : world) (r : report) :
  main cfg pre sched t0 t1 w = (Returned (GaveReport r), w') ->
  populated cfg sched = [] ->
  successful_requests r = 0
  /\ total_completion_tokens r = 0
  /\ (requests_per_second r == 0)%Q
  /\ latency r = empty_block
  /\ tokens_per_second r = empty_block
  /\ time_to_first_token r = empty_block.
Proof.
  intros Hm Hp.
  destruct (main_report_inv _ _ _ _ _ _ _ _ Hm) as (s0 & s & Es & Hr & _ & Hrep & _).
  destruct (start_pool_returned _ _ _ _ Es) as (_ & _ & _ & Hres & _ & _ & I0).
  destruct (run_later _ _ _ _ _ _ I0 Hr) as [_ L2 _ _ _ _ _].
  rewrite Hres, Hp in L2. cbn [app] in L2. rewrite L2 in Hrep.
  unfold make_report in Hrep. cbv zeta in Hrep.
  rewrite requests_per_second_of_total in Hrep. cbn in Hrep.
  inversion Hrep; subst r. cbn.
  repeat split; try reflexivity.
  destruct (Qpositive (t1 - t0)); [|reflexivity].
  unfold Qdiv. apply Qmult_0_l.
Qed.

Lemma report_when_every_request_fails_witness :
  exists r w',
    main cfg_2_2 env_ok sched_all_fail 100 110 empty_world
    = (Returned (GaveReport r), w')
    /\ populated cfg_2_2 sched_all_fail = []
    /\ successful_requests r = 0
    /\ latency r = empty_block.
Proof.
  assert (Hm : exists r w',
             main cfg_2_2 env_ok sched_all_fail 100 110 empty_world
             = (Returned (GaveReport r), w')).
  { eexists. eexists. vm_compute. reflexivity. }
  destruct Hm as (r & w' & Hm).
  assert (Hp : populated cfg_2_2 sched_all_fail = []) by (vm_compute; reflexivity).
  exists r, w'. split; [exact Hm|]. split; [exact Hp|].
  destruct (report_when_every_request_fails cfg_2_2 env_ok sched_all_fail
              100 110 empty_world w' r Hm Hp) as (H1 & _ & _ & H4 & _).
  split; [exact H1|exact H4].
Defined.

(** ** Waiting *)

Lemma update_nth_In {A} (w : nat) (x y : A) (l : list A) :
  In y (update_nth w x l) -> y = x \/ In y l.
Proof.
  revert w. induction l as [|z l IH]; intros [|w]; simpl; try tauto.
  - intros [H|H]; [left; symmetry; exact H|right; right; exact H].
  - intros [H|H]; [right; left; exact H|].
    destruct (IH _ H) as [E|E]; [left; exact E|right; right; exact E].
Qed.

Lemma got_workers (w : nat) (item : option nat) (rest : list (option nat))
      (s : pool) :
  exists st,
    st <> WGet
    /\ workers (got w item (pop w item rest s)) = update_nth w st (workers s).
Proof.
  destruct item as [i|]; unfold got, task_done; cbn.
  - exists (WReq i). split; [discriminate|reflexivity].
  - destruct (unfinished_tasks s); cbn.
    + exists (WCrashed ValueError). split; [discriminate|reflexivity].
    + exists WDone. split; [discriminate|reflexivity].
Qed.

Lemma after_request_workers (cfg : config) (w i : nat) (env : request_env)
      (s : pool) :
  exists st,
    st <> WGet
    /\ workers (after_request cfg w i env s) = update_nth w st (workers s).
Proof.
  unfold after_request.
  destruct (make_request env (model cfg) (max_completion_tokens cfg)
                         (request_timeout cfg) (outside s)) as [[res|e] o].
  - unfold task_done. destruct res; cbn; destruct (unfinished_tasks s); cbn;
      first [ exists WLoop; split; [discriminate|reflexivity]
            | exists (WCrashed ValueError); split; [discriminate|reflexivity] ].
  - exists (WCrashed e). split; [discriminate|reflexivity].
Qed.

(** A worker at the top of its loop finds a sentinel or a task in the
    queue. *)
Lemma queue_not_empty_for_live (n c : nat) (s : pool) (w : nat) :
  pool_inv n c s -> nth_error (workers s) w = Some WLoop -> queue s <> [].
Proof.
  intros [I1 _ _ _ I5 _ _] Hw Hq.
  assert (Hh : (tally done (workers s) + 1 <= length (workers s) + done WLoop)%nat).
  { apply tally_bound with (w := w); [intros []; simpl; lia|exact Hw]. }
  rewrite Hq in I5. unfold sentinels_in in I5. simpl in I5, Hh. lia.
Qed.

Lemma step_never_parks (n c : nat) (cfg : config) (s s' : pool) (a : action) :
  pool_inv n c s -> ~ In WGet (workers s) -> step cfg s a = Some s' ->
  ~ In WGet (workers s').
Proof.
  intros I Hno H.
  destruct (step_cases cfg s s' a H)
    as [(w & k & _ & Hw & Hk & Hq & ->)
       |[(w & k & item & rest & _ & Hw & Hk & Hq & ->)
        |[(w & item & rest & _ & Hw & Hq & ->)
         |(w & i & env & _ & Hw & ->)]]].
  - exfalso. apply (queue_not_empty_for_live n c s w I Hw Hq).
  - rewrite got_after_acquire.
    destruct (got_workers w item rest (acquire s)) as (st & Hst & ->).
    cbn [workers acquire]. intros Hin.
    apply update_nth_In in Hin as [E|Hin]; [congruence|contradiction].
  - exfalso. apply Hno. eapply nth_error_In. exact Hw.
  - destruct (after_request_workers cfg w i env s) as (st & Hst & ->).
    intros Hin.
    apply update_nth_In in Hin as [E|Hin]; [congruence|contradiction].
Qed.

(** X14.  No worker ever waits, neither for a permit nor for the queue: in
    every pool [main] can reach, a worker at the top of its loop finds a free
    permit and a non-empty queue and can take its next item at once, and no
    worker is parked in [queue.get()]; with as many permits as workers the
    semaphore never holds anyone back. *)
Theorem no_worker_ever_waits
        (cfg : config) (w w' : world) (s0 s : pool) (sched : list action) :
  start_pool cfg w = (Returned s0, w') ->
  run cfg s0 sched = Some s ->
  ~ In WGet (workers s)
  /\ forall v,
      nth_error (workers s) v = Some WLoop ->
      (0 < semaphore s)%nat
      /\ queue s <> []
      /\ exists s', step cfg s (Next v) = Some s'.
Proof.
  intros Hs Hr.
  destruct (start_pool_returned _ _ _ _ Hs) as (_ & _ & Hw & _ & _ & _ & I0).
  assert (H0 : ~ In WGet (workers s0)).
  { rewrite Hw. intros Hin. apply repeat_spec in Hin. discriminate. }
  assert (Hgen : forall sched s1 s2,
             pool_inv (Z.to_nat (num_requests cfg)) (Z.to_nat (concurrency cfg)) s1 ->
             ~ In WGet (workers s1) -> run cfg s1 sched = Some s2 ->
             ~ In WGet (workers s2)).
  { clear. induction sched as [|a sched IH]; intros s1 s2 I Hno; simpl.
    - intros H. inversion H; subst. exact Hno.
    - destruct (step cfg s1 a) as [s3|] eqn:E; [|discriminate].
      apply IH.
      + eapply step_inv; eauto.
      + eapply step_never_parks; eauto. }
  pose proof (run_inv _ _ _ _ _ _ I0 Hr) as I.
  split; [exact (Hgen sched s0 s I0 H0 Hr)|].
  intros v Hv.
  pose proof (queue_not_empty_for_live _ _ s v I Hv) as Hq.
  destruct I as [I1 I2 _ _ _ _ _].
  assert (Hh : (tally holding (workers s) + 1 <= length (workers s) + holding WLoop)%nat).
  { apply tally_bound with (w := v); [intros []; simpl; lia|exact Hv]. }
  simpl in Hh.
  split; [lia|]. split; [exact Hq|].
  simpl. rewrite Hv. destruct (semaphore s) as [|k]; [lia|].
  cbn [queue acquire]. destruct (queue s); eexists; reflexivity.
Qed.

Lemma no_worker_ever_waits_witness :
  ~ In WGet (workers (match run cfg_2_2 pool_2_2 [Next 0%nat; Reply 0%nat env_ok] with
                      | Some s => s
                      | None => pool_2_2
                      end))
  /\ forall v,
      nth_error (workers (match run cfg_2_2 pool_2_2 [Next 0%nat; Reply 0%nat env_ok] with
                          | Some s => s
                          | None => pool_2_2
                          end)) v = Some WLoop ->
      (0 < semaphore (match run cfg_2_2 pool_2_2 [Next 0%nat; Reply 0%nat env_ok] with
                      | Some s => s
                      | None => pool_2_2
                      end))%nat
      /\ queue (match run cfg_2_2 pool_2_2 [Next 0%nat; Reply 0%nat env_ok] with
                | Some s => s
                | None => pool_2_2
                end) <> []
      /\ exists s',
          step cfg_2_2
               (match run cfg_2_2 pool_2_2 [Next 0%nat; Reply 0%nat env_ok] with
                | Some s => s
                | None => pool_2_2
                end) (Next v) = Some s'.
Proof.
  assert (Hs : start_pool cfg_2_2 world_after_preflight
               = (Returned pool_2_2, world_after_preflight))
    by (vm_compute; reflexivity).
  assert (Hr : run cfg_2_2 pool_2_2 [Next 0%nat; Reply 0%nat env_ok]
               = Some (match run cfg_2_2 pool_2_2 [Next 0%nat; Reply 0%nat env_ok] with
                       | Some s => s
                       | None => pool_2_2
                       end))
    by (vm_compute; reflexivity).
  exact (no_worker_ever_waits cfg_2_2 world_after_preflight world_after_preflight
           pool_2_2 _ [Next 0%nat; Reply 0%nat env_ok] Hs Hr).
Defined.
